(** * RTV echo cancellation: the host page, the processing worker and the
      audio utilities, embedded in Rocq

    The development follows the three source files of the repository:
    - the React page ([App]): simulated progress, settings handling and the
      call into the WebAssembly engine;
    - the web worker ([Worker]): the [message] handler and its replies;
    - the audio helpers ([AudioUtils]): [calculateRMS] and [normalizeAudio].

    The engine behind [loadWasmModule] is not among them; the adaptive
    filter and its chunk scheduler ([Engine]) are modelled from the
    specification of the system.

    JavaScript numbers are IEEE-754 binary64 values; they are modelled with
    the executable specification of the Standard Library ([SpecFloat]), so
    every arithmetic step of the sources is the correctly rounded one.
    JavaScript objects are finite maps from property names to values. *)

From Stdlib Require Import ZArith Floats.SpecFloat.
From stdpp Require Import base option list strings pretty gmap.

Set Warnings "-register-all".
#[local] Open Scope Z_scope.

(** ** JavaScript numbers *)

Module F64.

Definition prec : Z := 53.
Definition emax : Z := 1024.

(** An integer literal, or an integer-valued counter, as a number. *)
Definition of_Z (z : Z) : spec_float := binary_normalize prec emax z 0 false.

Definition add : spec_float -> spec_float -> spec_float := SFadd prec emax.
Definition sub : spec_float -> spec_float -> spec_float := SFsub prec emax.
Definition mul : spec_float -> spec_float -> spec_float := SFmul prec emax.
Definition div : spec_float -> spec_float -> spec_float := SFdiv prec emax.
Definition sqrt : spec_float -> spec_float := SFsqrt prec emax.

(** A decimal literal [n / d] with exact [n] and [d], such as [0.05] or
    [0.3]: the nearest number, which is what one correctly rounded
    division yields. *)
Definition of_ratio (n d : Z) : spec_float := div (of_Z n) (of_Z d).

Definition is_nan (x : spec_float) : bool :=
  match x with S754_nan => true | _ => false end.

Definition is_zero (x : spec_float) : bool :=
  match x with S754_zero _ => true | _ => false end.

(** [Number.isFinite]. *)
Definition is_finite (x : spec_float) : bool :=
  match x with S754_zero _ | S754_finite _ _ _ => true | _ => false end.

(** [Math.floor]: a number with a negative exponent is cut to the integer
    below it; everything else is already integral, infinite or NaN. *)
Definition Math_floor (x : spec_float) : spec_float :=
  match x with
  | S754_finite s m (Zneg p) =>
      binary_normalize prec emax (cond_Zopp s (Zpos m) / 2 ^ Zpos p) 0 s
  | _ => x
  end.

(** [Math.min] of two arguments: NaN is contagious and [-0 < +0]. *)
Definition Math_min (a b : spec_float) : spec_float :=
  match SFcompare a b with
  | None => S754_nan
  | Some Lt => a
  | Some Gt => b
  | Some Eq => match a with S754_zero true => a | _ => b end
  end.

(** The integer a number stands for, if it is one. *)
Definition to_Z (x : spec_float) : option Z :=
  match x with
  | S754_zero _ => Some 0
  | S754_finite s m (Zneg p) =>
      if Zpos m mod 2 ^ Zpos p =? 0 then Some (cond_Zopp s (Zpos m / 2 ^ Zpos p)) else None
  | S754_finite s m e => Some (cond_Zopp s (Zpos m * 2 ^ e))
  | _ => None
  end.

Definition ltb : spec_float -> spec_float -> bool := SFltb.
Definition leb : spec_float -> spec_float -> bool := SFleb.

End F64.

(** ** Single-precision storage ([Float32Array]) *)

Module F32.

Definition prec : Z := 24.
Definition emax : Z := 128.

(** The values an element of a [Float32Array] can hold. *)
Definition representable (x : spec_float) : bool := valid_binary prec emax x.

(** Reading an element gives the number with the same value. *)
Definition to_number (x : spec_float) : spec_float :=
  match x with
  | S754_finite s m e => binary_round F64.prec F64.emax s m e
  | _ => x
  end.

(** Storing a number rounds it to single precision ([Math.fround]). *)
Definition fround (x : spec_float) : spec_float :=
  match x with
  | S754_finite s m e => binary_round prec emax s m e
  | _ => x
  end.

End F32.

(** ** Magnitudes

    [at_least s k x]: the number [x] has sign [s] and is infinite or has
    magnitude (digits of the mantissa plus exponent) at least [k], that is,
    absolute value at least [2 ^ (k - 1)]. In particular it is not zero. *)
Definition at_least (s : bool) (k : Z) (x : spec_float) : Prop :=
  match x with
  | S754_infinity s' => s' = s
  | S754_finite s' m e => s' = s /\ k <= Zpos (digits2_pos m) + e
  | _ => False
  end.

(** A sum of squares that has left zero: NaN, or positive and at least
    [2 ^ (k - 1)]. *)
Definition positive_or_nan (k : Z) (x : spec_float) : Prop :=
  x = S754_nan \/ at_least false k x.

(** ** JavaScript values that cross the worker boundary *)

Inductive JsVal : Type :=
| JUndefined
| JNull
| JBool (b : bool)
| JNum (x : spec_float)
| JStr (s : string)
| JBuffer (bytes : list Byte.byte)          (* an ArrayBuffer *)
| JFloat32Array (samples : list spec_float)
| JObj (fields : gmap string JsVal).

#[global] Instance JsVal_inhabited : Inhabited JsVal := populate JUndefined.

(** Property read [o.k] on a plain object; an absent property is
    [undefined]. *)
Definition prop (o : gmap string JsVal) (k : string) : JsVal :=
  default JUndefined (o !! k).

(** A promise that has settled: rejected with an error message, or
    fulfilled with a value. *)
Definition Settled (A : Type) : Type := string + A.

(** The engine object returned by [loadWasmModule]; its code is not part
    of the sources, so its [processAudio] method is a field. *)
Record WasmModule : Type := {
  wasm_processAudio : JsVal -> JsVal -> Settled JsVal
}.

(** ** Code that acts on its surroundings and may throw

    A computation logs what it does (each entry of type [E]) and then either
    throws an error message or returns a value. *)

Module Trace.

Definition M (E A : Type) : Type := list E * Settled A.

Section Ops.
Context {E : Type}.

Definition ret {A} (a : A) : M E A := ([], inr a).

Definition bind {A B} (m : M E A) (k : A -> M E B) : M E B :=
  match m with
  | (t, inl e) => (t, inl e)
  | (t, inr a) => let '(t', r) := k a in (t ++ t', r)
  end.

Definition emit (e : E) : M E unit := ([e], inr tt).

Definition raise {A} (message : string) : M E A := ([], inl message).

(** [await p] on a settled promise: a rejection is thrown. *)
Definition await {A} (p : Settled A) : M E A := ([], p).

(** [try { body } catch (error) { handler }]. *)
Definition try_catch (body : M E unit) (handler : string -> M E unit) : M E unit :=
  match body with
  | (t, inl error) => let '(t', r) := handler error in (t ++ t', r)
  | (t, inr tt) => (t, inr tt)
  end.

(** [try { body } catch (error) { handler } finally { finalizer }], for
    a finalizer that does not throw. *)
Definition try_catch_finally (body : M E unit) (handler : string -> M E unit)
    (finalizer : M E unit) : M E unit :=
  let '(t, r) := try_catch body handler in
  let '(t', _) := finalizer in
  (t ++ t', r).
End Ops.

Module Notations.
Notation "'let*' x ':=' m 'in' k" := (bind m (fun x => k))
  (at level 10, x pattern, m at level 100, k at level 200, only parsing).
End Notations.

End Trace.

Import Trace.Notations.

(** ** Audio helpers *)

Module AudioUtils.

(** Reading a typed array past its end gives [undefined], which
    arithmetic turns into NaN. *)
#[global] Instance spec_float_inhabited : Inhabited spec_float := populate S754_nan.

(** [sum += buffer[i] * buffer[i]] over the whole buffer. *)
Fixpoint sum_squares (sum : spec_float) (buffer : list spec_float) : spec_float :=
  match buffer with
  | [] => sum
  | x :: rest =>
      let v := F32.to_number x in
      sum_squares (F64.add sum (F64.mul v v)) rest
  end.

Definition calculateRMS (buffer : list spec_float) : spec_float :=
  let sum := sum_squares (F64.of_Z 0) buffer in
  F64.sqrt (F64.div sum (F64.of_Z (Z.of_nat (length buffer)))).

(** The gain computed by [normalizeAudio]: no test on [currentRMS]. *)
Definition gain (buffer : list spec_float) (targetRMS : spec_float) : spec_float :=
  let currentRMS := calculateRMS buffer in
  F64.div targetRMS currentRMS.

(** The loop [for (i = 0; i < buffer.length; i++) normalizedBuffer[i] =
    buffer[i] * gain], with [n] iterations left to run from index [i]. *)
Fixpoint normalize_loop (n i : nat) (buffer : list spec_float) (gain : spec_float)
    (normalizedBuffer : list spec_float) : list spec_float :=
  match n with
  | O => normalizedBuffer
  | S n' =>
      let v := F64.mul (F32.to_number (buffer !!! i)) gain in
      normalize_loop n' (S i) buffer gain (<[i := F32.fround v]> normalizedBuffer)
  end.

Definition normalizeAudio (buffer : list spec_float) (targetRMS : spec_float)
  : list spec_float :=
  let gain := gain buffer targetRMS in
  (* new Float32Array(buffer.length): all elements +0 *)
  let normalizedBuffer := replicate (length buffer) (S754_zero false) in
  normalize_loop (length buffer) 0 buffer gain normalizedBuffer.

(** The default value of the parameter [targetRMS]. *)
Definition default_targetRMS : spec_float := F64.of_ratio 3 10.

(** *** [visualizeAudioWaveform]

    The calls made on the 2D context of the canvas, in order. *)
Inductive CanvasCall : Type :=
| clearRect (x y w h : spec_float)
| set_strokeStyle (color : string)
| set_lineWidth (w : spec_float)
| beginPath
| moveTo (x y : spec_float)
| lineTo (x y : spec_float)
| stroke.

(** [height - (audioData[i] / 2 + 0.5) * height]. *)
Definition waveform_y (height sample : spec_float) : spec_float :=
  let v := F64.add (F64.div (F32.to_number sample) (F64.of_Z 2)) (F64.of_ratio 5 10) in
  F64.sub height (F64.mul v height).

(** The drawing loop, with [n] iterations left to run from index [i] and
    the running abscissa [x]. *)
Fixpoint waveform_loop (n i : nat) (x : spec_float) (audioData : list spec_float)
    (sliceWidth height : spec_float) : list CanvasCall :=
  match n with
  | O => []
  | S n' =>
      let y := waveform_y height (audioData !!! i) in
      (if Nat.eqb i 0 then moveTo x y else lineTo x y)
        :: waveform_loop n' (S i) (F64.add x sliceWidth) audioData sliceWidth height
  end.

(** [canvas.width] and [canvas.height] are integers. *)
Definition visualizeAudioWaveform (width height : Z) (audioData : list spec_float)
    (color : string) : list CanvasCall :=
  let w := F64.of_Z width in
  let h := F64.of_Z height in
  let sliceWidth := F64.div w (F64.of_Z (Z.of_nat (length audioData))) in
  [clearRect (F64.of_Z 0) (F64.of_Z 0) w h; set_strokeStyle color;
   set_lineWidth (F64.of_Z 2); beginPath]
  ++ waveform_loop (length audioData) 0 (F64.of_Z 0) audioData sliceWidth h
  ++ [stroke].

(** The default value of the parameter [color]. *)
Definition default_color : string := "#4f46e5".

(** The ordinate of a path point. *)
Definition ordinate (c : CanvasCall) : option spec_float :=
  match c with moveTo _ y | lineTo _ y => Some y | _ => None end.

(** The samples 1 and -1 as single-precision values. *)
Definition one32 : spec_float := S754_finite false 8388608 (-23).
Definition minus_one32 : spec_float := S754_finite true 8388608 (-23).

End AudioUtils.

(** ** The filtering engine and its scheduler *)

Module Engine.

(** Modelled from the spec: the engine's errors (section 7); the engine
    itself, the WebAssembly wrapper and its filter, is not among the
    sources. *)
Inductive Error : Type := ValidationError | DivergenceError | Busy.

(** Modelled from the spec: the status of a job (section 3). *)
Inductive Status : Type := Pending | Running | Completed | Failed | Cancelled.

(** Modelled from the spec: the settings of a job (section 3); the
    engine's own declaration is in the WebAssembly wrapper, which is not
    among the sources. *)
Record ProcessingSettings : Type := {
  filterLength : Z;
  stepSize : spec_float
}.

(** Modelled from the spec: the allowed ranges of section 3,
    [filterLength] in [128, 2048] in steps of 128 and [stepSize] in
    (0, 0.2]. *)
Definition valid_settings (s : ProcessingSettings) : bool :=
  (128 <=? filterLength s) && (filterLength s <=? 2048)
  && (filterLength s mod 128 =? 0)
  && F64.ltb (F64.of_Z 0) (stepSize s)
  && F64.leb (stepSize s) (F64.of_ratio 2 10).

(** Modelled from the spec: the state owned by one job (section 3);
    [history] holds the last [filterLength] inputs, newest first. *)
Record FilterState : Type := {
  coefficients : list spec_float;
  history : list spec_float
}.

(** Modelled from the spec: the dot product of steps 2 and 4 of
    [processSample]. *)
Fixpoint dot (a b : list spec_float) : spec_float :=
  match a, b with
  | x :: a', y :: b' => F64.add (F64.mul x y) (dot a' b')
  | _, _ => F64.of_Z 0
  end.

(** Modelled from the spec: the clamp to [-1, 1] of step 3. *)
Definition clamp (e : spec_float) : spec_float :=
  if F64.ltb e (F64.of_Z (-1)) then F64.of_Z (-1)
  else if F64.ltb (F64.of_Z 1) e then F64.of_Z 1
  else e.

Section Core.
(** The regularization constant: small, positive, fixed internally. *)
Variable epsilon : spec_float.
(** The number of samples per chunk, a scheduling parameter. *)
Variable chunkSize : nat.

(** Modelled from the spec: [reset] of section 4.1. *)
Definition reset (s : ProcessingSettings) : Error + FilterState :=
  if valid_settings s
  then inr {| coefficients := replicate (Z.to_nat (filterLength s)) (S754_zero false);
              history := replicate (Z.to_nat (filterLength s)) (S754_zero false) |}
  else inl ValidationError.

(** Modelled from the spec: [processSample] of section 4.1, steps 1 to 7
    and the divergence check. *)
Definition processSample (s : ProcessingSettings) (st : FilterState) (x : spec_float)
  : Error + (FilterState * spec_float) :=
  let h := history st in
  let y_hat := dot (coefficients st) h in
  let e := clamp (F64.sub x y_hat) in
  let mu_n := F64.div (stepSize s) (F64.add (dot h h) epsilon) in
  let coefficients' :=
    zip_with (fun c hi => F64.add c (F64.mul (F64.mul mu_n e) hi)) (coefficients st) h in
  if F64.is_finite e && forallb F64.is_finite coefficients'
  then inr ({| coefficients := coefficients';
               history := x :: take (length h - 1) h |}, e)
  else inl DivergenceError.

(** Modelled from the spec: one chunk through the filter (sections 3 and
    4.2); the state is carried from sample to sample and the outputs are
    collected in order. *)
Fixpoint process_chunk (s : ProcessingSettings) (st : FilterState)
    (chunk : list spec_float) : Error + (FilterState * list spec_float) :=
  match chunk with
  | [] => inr (st, [])
  | x :: rest =>
      match processSample s st x with
      | inl err => inl err
      | inr (st', e) =>
          match process_chunk s st' rest with
          | inl err => inl err
          | inr (st'', es) => inr (st'', e :: es)
          end
      end
  end.

(** Modelled from the spec: a job (section 3), with what the scheduler
    keeps for it: the filter state while the job lives, the outputs so
    far and the cancellation request. *)
Record ProcessingJob : Type := {
  id : nat;
  input : list spec_float;
  settings : ProcessingSettings;
  status : Status;
  progressPercent : Z;
  result : option (Error + list spec_float);
  filter : option FilterState;
  outputs : list spec_float;
  cancel_requested : bool
}.

(** Modelled from the spec: one engine instance (sections 3 and 5), the
    job counter and the single slot. *)
Record Instance : Type := { next_id : nat; slot : option ProcessingJob }.

(** Modelled from the spec: a freshly initialized instance. *)
Definition init : Instance := {| next_id := 0; slot := None |}.

(** Modelled from the spec: a job that has not reached a terminal status. *)
Definition active (j : ProcessingJob) : bool :=
  match status j with Pending | Running => true | _ => false end.

(** Modelled from the spec: the single slot is taken (section 5). *)
Definition busy (e : Instance) : bool :=
  match slot e with Some j => active j | None => false end.

(** Modelled from the spec: the job created by [submit] (section 4.2), the
    empty signal completing at once with progress 100. *)
Definition new_job (i : nat) (signal : list spec_float) (s : ProcessingSettings)
    (st : FilterState) : ProcessingJob :=
  match signal with
  | [] => {| id := i; input := signal; settings := s; status := Completed;
             progressPercent := 100; result := Some (inr []); filter := None;
             outputs := []; cancel_requested := false |}
  | _ => {| id := i; input := signal; settings := s; status := Pending;
            progressPercent := 0; result := None; filter := Some st;
            outputs := []; cancel_requested := false |}
  end.

(** Modelled from the spec: [submit] of section 4.2. *)
Definition submit (e : Instance) (signal : list spec_float) (s : ProcessingSettings)
  : Instance * (Error + nat) :=
  if busy e then (e, inl Busy)
  else match reset s with
       | inl err => (e, inl err)
       | inr st =>
           ({| next_id := S (next_id e);
               slot := Some (new_job (next_id e) signal s st) |}, inr (next_id e))
       end.

(** Modelled from the spec: [cancel] of section 4.2; the request takes
    effect at the next chunk boundary. *)
Definition cancel (e : Instance) (jobId : nat) : Instance :=
  match slot e with
  | Some j =>
      if active j && Nat.eqb (id j) jobId
      then {| next_id := next_id e;
              slot := Some {| id := id j; input := input j; settings := settings j;
                              status := status j; progressPercent := progressPercent j;
                              result := result j; filter := filter j;
                              outputs := outputs j; cancel_requested := true |} |}
      else e
  | None => e
  end.

(** Modelled from the spec: a terminal transition (section 3); the filter
    state is destroyed. *)
Definition finish (j : ProcessingJob) (st : Status) (p : Z)
    (r : option (Error + list spec_float)) (out : list spec_float) : ProcessingJob :=
  {| id := id j; input := input j; settings := settings j; status := st;
     progressPercent := p; result := r; filter := None;
     outputs := out; cancel_requested := cancel_requested j |}.

(** Modelled from the spec: one turn of the chunk loop of section 4.2 on
    an active job: the cancellation check at the chunk boundary, then one
    chunk, then the progress update or the terminal transition. *)
Definition job_step (j : ProcessingJob) : ProcessingJob :=
  if negb (active j) then j
  else if cancel_requested j then finish j Cancelled (progressPercent j) None []
  else
    match filter j with
    | None => j
    | Some st =>
        let done := length (outputs j) in
        let chunk := take chunkSize (drop done (input j)) in
        match process_chunk (settings j) st chunk with
        | inl err => finish j Failed (progressPercent j) (Some (inl err)) []
        | inr (st', es) =>
            let out := outputs j ++ es in
            let total := length (input j) in
            if Nat.leb total (length out)
            then finish j Completed 100 (Some (inr out)) out
            else {| id := id j; input := input j; settings := settings j;
                    status := Running;
                    progressPercent :=
                      Z.min (100 * Z.of_nat (length out) / Z.of_nat total) 99;
                    result := None; filter := Some st';
                    outputs := out; cancel_requested := cancel_requested j |}
        end
    end.

(** Modelled from the spec: one turn of the loop on the instance. *)
Definition step (e : Instance) : Instance :=
  {| next_id := next_id e; slot := job_step <$> slot e |}.

(** Modelled from the spec: the chunk loop of section 4.2, at most [n]
    turns. *)
Fixpoint run (n : nat) (e : Instance) : Instance :=
  match n with
  | O => e
  | S n' => if busy e then run n' (step e) else e
  end.

(** What a job is apart from its identifier. *)
Definition content (j : ProcessingJob) :=
  (input j, settings j, status j, progressPercent j, result j, filter j,
   outputs j, cancel_requested j).

(** What holds of the job in the slot from submission on. *)
Definition job_inv (signal : list spec_float) (j : ProcessingJob) : Prop :=
  input j = signal
  /\ match status j with
     | Pending | Running =>
         cancel_requested j = false
         /\ (exists st, filter j = Some st)
         /\ (length (outputs j) < length signal)%nat
     | Completed =>
         exists out, result j = Some (inr out) /\ length out = length signal
     | Failed => result j = Some (inl DivergenceError)
     | Cancelled => False
     end.

(** Modelled from the spec: a whole job on a given instance, from [submit]
    to the status and result the slot holds when the loop has ended. *)
Definition process (e : Instance) (signal : list spec_float) (s : ProcessingSettings)
  : option (Status * option (Error + list spec_float)) :=
  let '(e', r) := submit e signal s in
  match r with
  | inl _ => None
  | inr _ =>
      (fun j => (status j, result j)) <$> slot (run (length signal) e')
  end.
End Core.

End Engine.

(** ** The page (React component [App]) *)

Module App.

(** What [processAudio] does to the outside, in order: calls of the state
    setters, timers, the engine call, writes to the output element and the
    console. *)
Inductive Effect : Type :=
| setIsProcessing (b : bool)
| setProcessingProgress (p : spec_float)
| setTimeout (ms : Z)
| call_processAudio (arrayBuffer : JsVal) (settings : gmap string JsVal)
| setProcessedAudio (url : string)
| set_audioOutput_src (url : string)
| console_error (label error : string).

Abbreviation M := (Trace.M Effect).

(** An uploaded or recorded file: what [arrayBuffer()] settles to. *)
Record File : Type := { file_name : string; arrayBuffer : Settled JsVal }.

(** The component state read by [processAudio], the module-level
    [wasmModule] and whether the output [<audio>] element is mounted. *)
Record State : Type := {
  audioFile : option File;
  wasmModule : option WasmModule;
  settings : gmap string JsVal;
  audioOutputRef : bool
}.

(** [useState] initial value of [settings]. *)
Definition initial_settings : gmap string JsVal :=
  {[ "filterLength" := JNum (F64.of_Z 512);
     "stepSize" := JNum (F64.of_ratio 5 100);
     "showAdvancedSettings" := JBool false ]}.

Definition totalSteps : Z := 20.

(** [Math.min(Math.floor((currentStep / totalSteps) * 100), 99)]. *)
Definition progress (currentStep : Z) : spec_float :=
  F64.Math_min
    (F64.Math_floor
       (F64.mul (F64.div (F64.of_Z currentStep) (F64.of_Z totalSteps)) (F64.of_Z 100)))
    (F64.of_Z 99).

(** The closure [updateProgress]; the captured counter [currentStep] is
    passed in and returned. *)
Definition updateProgress (currentStep : Z) : M Z :=
  let currentStep := currentStep + 1 in
  let* _ := Trace.emit (setProcessingProgress (progress currentStep)) in
  let* _ := Trace.emit (setTimeout 100) in
  Trace.ret currentStep.

(** [while (currentStep < totalSteps) await updateProgress()]; [n] bounds
    the number of iterations and is taken to be [totalSteps - currentStep],
    the loop's variant. *)
Fixpoint remaining_steps (n : nat) (currentStep : Z) : M Z :=
  match n with
  | O => Trace.ret currentStep
  | S n' =>
      if currentStep <? totalSteps
      then let* currentStep := updateProgress currentStep in
           remaining_steps n' currentStep
      else Trace.ret currentStep
  end.

Section ProcessAudio.
(** [URL.createObjectURL(new Blob([buffer], ...))], supplied by the
    browser. *)
Variable createObjectURL : JsVal -> string.

Definition processAudio_try (file : File) (module : WasmModule) (st : State) : M unit :=
  let* arrayBuffer := Trace.await (arrayBuffer file) in
  let currentStep := 0 in
  let* currentStep := updateProgress currentStep in
  let engine_settings : gmap string JsVal :=
    {[ "filterLength" := prop (settings st) "filterLength";
       "stepSize" := prop (settings st) "stepSize" ]} in
  let* _ := Trace.emit (call_processAudio arrayBuffer engine_settings) in
  let* processedBuffer :=
    Trace.await (wasm_processAudio module arrayBuffer (JObj engine_settings)) in
  let* _ := remaining_steps (Z.to_nat (totalSteps - currentStep)) currentStep in
  let processedUrl := createObjectURL processedBuffer in
  let* _ := Trace.emit (setProcessedAudio processedUrl) in
  let* _ := (if audioOutputRef st then Trace.emit (set_audioOutput_src processedUrl) else Trace.ret tt) in
  Trace.emit (setProcessingProgress (F64.of_Z 100)).

Definition processAudio (st : State) : list Effect :=
  match audioFile st, wasmModule st with
  | Some file, Some module =>
      fst (let* _ := Trace.emit (setIsProcessing true) in
           let* _ := Trace.emit (setProcessingProgress (F64.of_Z 0)) in
           Trace.try_catch_finally
             (processAudio_try file module st)
             (fun error => Trace.emit (console_error "Error processing audio:" error))
             (Trace.emit (setIsProcessing false)))
  | _, _ => []
  end.
End ProcessAudio.

(** The fields of [e.target] read by [handleSettingChange]. *)
Record ChangeEvent : Type := {
  name : string; value : string; type : string; checked : bool
}.

(** [{...settings, [name]: type === 'checkbox' ? checked : value}]. *)
Definition handleSettingChange (settings : gmap string JsVal) (e : ChangeEvent)
  : gmap string JsVal :=
  <[ name e := if String.eqb (type e) "checkbox" then JBool (checked e) else JStr (value e) ]>
    settings.

(** Modelled from the spec: the ranges of section 3 read on the values
    the page holds; anything that is not a number is out of range. *)
Definition settings_in_range (settings : gmap string JsVal) : bool :=
  match prop settings "filterLength", prop settings "stepSize" with
  | JNum n, JNum s =>
      match F64.to_Z n with
      | Some k => Engine.valid_settings {| Engine.filterLength := k; Engine.stepSize := s |}
      | None => false
      end
  | _, _ => false
  end.

(** The values a successful run reports, in order. *)
Definition reports : list spec_float :=
  map F64.of_Z [0; 5; 10; 15; 20; 25; 30; 35; 40; 45; 50; 55; 60; 65; 70; 75;
                80; 85; 90; 95; 99; 100].

(** The progress values reported by a run, in order. *)
Definition progress_values (t : list Effect) : list spec_float :=
  omap (fun e => match e with setProcessingProgress p => Some p | _ => None end) t.

(** Each reported value is below the next one. *)
Fixpoint strictly_increasing (l : list spec_float) : bool :=
  match l with
  | x :: (y :: _) as rest => F64.ltb x y && strictly_increasing rest
  | _ => true
  end.

Definition engine_calls (t : list Effect) : list (JsVal * gmap string JsVal) :=
  omap (fun e => match e with call_processAudio b s => Some (b, s) | _ => None end) t.

(** The calls of [setIsProcessing], of [setProcessedAudio] and of
    [setTimeout] in a run, in order. *)
Definition processing_flags (t : list Effect) : list bool :=
  omap (fun e => match e with setIsProcessing b => Some b | _ => None end) t.

Definition published (t : list Effect) : list string :=
  omap (fun e => match e with setProcessedAudio url => Some url | _ => None end) t.

Definition timers (t : list Effect) : list Z :=
  omap (fun e => match e with setTimeout ms => Some ms | _ => None end) t.

Definition logged (t : list Effect) : list string :=
  omap (fun e => match e with console_error _ error => Some error | _ => None end) t.

(** JavaScript truthiness, as [!] reads it. *)
Definition truthy (v : JsVal) : bool :=
  match v with
  | JUndefined | JNull => false
  | JBool b => b
  | JNum x => negb (F64.is_zero x || F64.is_nan x)
  | JStr s => negb (String.eqb s "")
  | _ => true
  end.

(** [{...settings, showAdvancedSettings: !settings.showAdvancedSettings}]. *)
Definition toggleAdvancedSettings (settings : gmap string JsVal) : gmap string JsVal :=
  <[ "showAdvancedSettings" := JBool (negb (truthy (prop settings "showAdvancedSettings"))) ]>
    settings.

(** The page after the user has changed its settings. *)
Definition with_settings (st : State) (s : gmap string JsVal) : State :=
  {| audioFile := audioFile st; wasmModule := wasmModule st; settings := s;
     audioOutputRef := audioOutputRef st |}.

End App.

(** ** The input side of the page: upload and recording *)

Module Capture.

(** The state written by the upload and recording handlers: the chosen
    file, the URL of the processed audio, and the recorder with the chunks
    it has delivered (each a Blob, as its bytes). *)
Record State : Type := {
  audioFile : option App.File;
  processedAudio : option string;
  isRecording : bool;
  mediaRecorderRef : bool;
  audioChunksRef : list (list Byte.byte)
}.

(** [handleFileUpload]; [files] is [event.target.files], empty when it is
    [null]. *)
Definition handleFileUpload (st : State) (files : list App.File) : State :=
  match files with
  | file :: _ =>
      {| audioFile := Some file; processedAudio := None;
         isRecording := isRecording st; mediaRecorderRef := mediaRecorderRef st;
         audioChunksRef := audioChunksRef st |}
  | [] => st
  end.

(** [startRecording]; [stream] is what [getUserMedia] settles to. A
    rejection is caught and logged. The constructor of [MediaRecorder] and
    its [start] are taken not to throw. *)
Definition startRecording (st : State) (stream : Settled unit) : State :=
  match stream with
  | inl _ => st
  | inr _ =>
      {| audioFile := audioFile st; processedAudio := processedAudio st;
         isRecording := true; mediaRecorderRef := true; audioChunksRef := [] |}
  end.

(** [mediaRecorder.ondataavailable]: [if (event.data.size > 0) push]. *)
Definition ondataavailable (st : State) (data : list Byte.byte) : State :=
  if (0 <? length data)%nat
  then {| audioFile := audioFile st; processedAudio := processedAudio st;
          isRecording := isRecording st; mediaRecorderRef := mediaRecorderRef st;
          audioChunksRef := audioChunksRef st ++ [data] |}
  else st.

(** [mediaRecorder.onstop]: the chunks become the file [recording.wav]. *)
Definition onstop (st : State) : State :=
  {| audioFile :=
       Some {| App.file_name := "recording.wav";
               App.arrayBuffer := inr (JBuffer (concat (audioChunksRef st))) |};
     processedAudio := None;
     isRecording := isRecording st; mediaRecorderRef := mediaRecorderRef st;
     audioChunksRef := audioChunksRef st |}.

(** [stopRecording]: only with a recorder and while recording. *)
Definition stopRecording (st : State) : State :=
  if mediaRecorderRef st && isRecording st
  then {| audioFile := audioFile st; processedAudio := processedAudio st;
          isRecording := false; mediaRecorderRef := mediaRecorderRef st;
          audioChunksRef := audioChunksRef st |}
  else st.

(** [setProcessedAudio(processedUrl)] at the end of a successful
    [processAudio]. *)
Definition publish (st : State) (url : string) : State :=
  {| audioFile := audioFile st; processedAudio := Some url;
     isRecording := isRecording st; mediaRecorderRef := mediaRecorderRef st;
     audioChunksRef := audioChunksRef st |}.

Inductive Event : Type :=
| Upload (files : list App.File)
| StartRecording (stream : Settled unit)
| DataAvailable (data : list Byte.byte)
| RecorderStopped
| StopRecording
| Published (url : string).

Definition step (st : State) (ev : Event) : State :=
  match ev with
  | Upload files => handleFileUpload st files
  | StartRecording stream => startRecording st stream
  | DataAvailable data => ondataavailable st data
  | RecorderStopped => onstop st
  | StopRecording => stopRecording st
  | Published url => publish st url
  end.

Definition run (st : State) (evs : list Event) : State := fold_left step evs st.

(** The state when the component mounts: the initial values of [useState]
    and [useRef]. *)
Definition initial : State :=
  {| audioFile := None; processedAudio := None; isRecording := false;
     mediaRecorderRef := false; audioChunksRef := [] |}.

End Capture.

(** ** The worker ([audio-processor.worker.js]) *)

Module Worker.

(** A message posted to the main thread: an object literal. *)
Abbreviation Message := (gmap string JsVal).

(** What the worker imports and what the JavaScript runtime supplies. The
    three functions of the engine wrapper are not part of the sources. *)
Record Env : Type := {
  loadWasmModule : Settled WasmModule;
  prepareAudioForProcessing : JsVal -> Settled JsVal;
  prepareAudioForPlayback : JsVal -> Settled (list Byte.byte);
  Number_toString : spec_float -> string
}.

(** An [async] function suspended at its [await], with what the awaited
    promise settles to. *)
Inductive Task : Type :=
| await_loadWasmModule (outcome : Settled WasmModule)
| await_processAudio (outcome : Settled JsVal).

(** The module-level variable [wasmModule] and the suspended handlers. *)
Record State : Type := {
  wasmModule : option WasmModule;
  tasks : list Task
}.

Definition msg_ready : Message := {[ "type" := JStr "ready" ]}.

Definition msg_init_ok : Message :=
  {[ "type" := JStr "init"; "success" := JBool true ]}.

Definition msg_init_failed (error : string) : Message :=
  {[ "type" := JStr "init"; "success" := JBool false; "error" := JStr error ]}.

Definition msg_processed (playbackAudio : list Byte.byte) : Message :=
  {[ "type" := JStr "processed"; "success" := JBool true;
     "data" := JBuffer playbackAudio ]}.

Definition msg_process_failed (error : string) : Message :=
  {[ "type" := JStr "processed"; "success" := JBool false; "error" := JStr error ]}.

Definition msg_error (message : string) : Message :=
  {[ "type" := JStr "error"; "message" := JStr message ]}.

(** Loading the script: [wasmModule = null] and the last statement,
    [self.postMessage({ type: 'ready' })]. *)
Definition start : State * list Message :=
  ({| wasmModule := None; tasks := [] |}, [msg_ready]).

(** *** [processAudio], run to completion *)

Definition processAudio (env : Env) (wasmModule : option WasmModule)
    (audioData settings : JsVal) : list Message :=
  fst (Trace.try_catch
         (let* module :=
            match wasmModule with
            | None => Trace.raise "WASM module not initialized"
            | Some module => Trace.ret module
            end in
          let* preparedAudio := Trace.await (prepareAudioForProcessing env audioData) in
          let* processedAudio :=
            Trace.await (wasm_processAudio module preparedAudio settings) in
          let* playbackAudio := Trace.await (prepareAudioForPlayback env processedAudio) in
          Trace.emit (msg_processed playbackAudio))
         (fun error => Trace.emit (msg_process_failed error))).

(** *** The same function cut at its [await]

    Up to [await wasmModule.processAudio(...)] the function runs inside
    the delivery of the message; what follows runs when the promise
    settles. *)

Definition processAudio_begin (env : Env) (st : State) (audioData settings : JsVal)
  : State * list Message :=
  match wasmModule st with
  | None => (st, [msg_process_failed "WASM module not initialized"])
  | Some module =>
      match prepareAudioForProcessing env audioData with
      | inl error => (st, [msg_process_failed error])
      | inr preparedAudio =>
          let outcome := wasm_processAudio module preparedAudio settings in
          ({| wasmModule := wasmModule st;
              tasks := tasks st ++ [await_processAudio outcome] |}, [])
      end
  end.

Definition processAudio_resume (env : Env) (outcome : Settled JsVal) : list Message :=
  match outcome with
  | inl error => [msg_process_failed error]
  | inr processedAudio =>
      match prepareAudioForPlayback env processedAudio with
      | inl error => [msg_process_failed error]
      | inr playbackAudio => [msg_processed playbackAudio]
      end
  end.

(** [initWasmModule]: suspended at [await loadWasmModule()], then the
    assignment and the reply. *)
Definition initWasmModule_begin (env : Env) (st : State) : State * list Message :=
  ({| wasmModule := wasmModule st;
      tasks := tasks st ++ [await_loadWasmModule (loadWasmModule env)] |}, []).

Definition initWasmModule_resume (st : State) (outcome : Settled WasmModule)
  : State * list Message :=
  match outcome with
  | inr module => ({| wasmModule := Some module; tasks := tasks st |}, [msg_init_ok])
  | inl error => (st, [msg_init_failed error])
  end.

(** *** The message handler *)

(** [`${v}`]: the string conversion of a template literal. A cloned plain
    object prints as [[object Object]] unless it has an own [toString]
    property, which after cloning is not callable: the conversion then
    throws a [TypeError]. *)
Definition ToString (env : Env) (v : JsVal) : option string :=
  match v with
  | JUndefined => Some "undefined"
  | JNull => Some "null"
  | JBool true => Some "true"
  | JBool false => Some "false"
  | JNum x => Some (Number_toString env x)
  | JStr s => Some s
  | JBuffer _ => Some "[object ArrayBuffer]"
  | JFloat32Array samples => Some (String.concat "," (map (Number_toString env) samples))
  | JObj fields =>
      match fields !! "toString" with
      | Some _ => None
      | None => Some "[object Object]"
      end
  end.

(** [const { type, data, settings } = event.data]: [null] and [undefined]
    cannot be destructured; a primitive, a buffer or a typed array has none
    of the three properties. *)
Definition destructure (event_data : JsVal) : option (JsVal * JsVal * JsVal) :=
  match event_data with
  | JUndefined | JNull => None
  | JObj o => Some (prop o "type", prop o "data", prop o "settings")
  | _ => Some (JUndefined, JUndefined, JUndefined)
  end.

(** [case 'init':] and [case 'process':] compare with [===]. *)
Definition is_string (v : JsVal) (s : string) : bool :=
  match v with JStr t => String.eqb t s | _ => false end.

(** The outcome of delivering one message: the new state, what was posted
    and whether the handler ended in an uncaught [TypeError]. *)
Record Delivery : Type := {
  state : State;
  posted : list Message;
  threw : bool
}.

Definition delivered (r : State * list Message) : Delivery :=
  {| state := r.1; posted := r.2; threw := false |}.

Definition onmessage (env : Env) (st : State) (event_data : JsVal) : Delivery :=
  match destructure event_data with
  | None => {| state := st; posted := []; threw := true |}
  | Some (type, data, settings) =>
      if is_string type "init" then delivered (initWasmModule_begin env st)
      else if is_string type "process" then delivered (processAudio_begin env st data settings)
      else
        match ToString env type with
        | Some s => delivered (st, [msg_error ("Unknown message type: " +:+ s)])
        | None => {| state := st; posted := []; threw := true |}
        end
  end.

(** *** The event loop *)

Inductive Event : Type :=
| Deliver (event_data : JsVal)      (* a message from the main thread *)
| Settle (i : nat).                 (* the promise awaited by task [i] settles *)

Definition settle (env : Env) (st : State) (i : nat) : State * list Message :=
  match tasks st !! i with
  | None => (st, [])
  | Some task =>
      let st' := {| wasmModule := wasmModule st; tasks := delete i (tasks st) |} in
      match task with
      | await_loadWasmModule outcome => initWasmModule_resume st' outcome
      | await_processAudio outcome => (st', processAudio_resume env outcome)
      end
  end.

Definition step (env : Env) (st : State) (ev : Event) : State * list Message :=
  match ev with
  | Deliver event_data =>
      let r := onmessage env st event_data in (state r, posted r)
  | Settle i => settle env st i
  end.

(** Running a sequence of events; the replies are kept per event. *)
Fixpoint run (env : Env) (st : State) (evs : list Event) : State * list (list Message) :=
  match evs with
  | [] => (st, [])
  | ev :: evs =>
      let '(st', out) := step env st ev in
      let '(st'', outs) := run env st' evs in
      (st'', out :: outs)
  end.

(** A message handled without interleaving: it is delivered and the
    promise it awaits, if any, settles before anything else happens. *)
Definition handle (env : Env) (st : State) (event_data : JsVal) : State * list Message :=
  let r := onmessage env st event_data in
  let n := length (tasks st) in
  let '(st', out) := settle env (state r) n in
  (st', posted r ++ out).

Definition type_of (m : Message) : JsVal := prop m "type".


(** The deliveries among [evs] whose handler does not end in a
    [TypeError]; whether it does depends on the message alone. *)
Definition answerable (env : Env) (ev : Event) : bool :=
  match ev with
  | Deliver event_data => negb (threw (onmessage env start.1 event_data))
  | Settle _ => false
  end.

(** The wire format of a reply: the fields each kind of message has. *)
Definition reply_shape (m : Message) : bool :=
  match m !! "type", m !! "success", m !! "data", m !! "error", m !! "message" with
  | Some (JStr "init"), Some (JBool true), None, None, None => true
  | Some (JStr "init"), Some (JBool false), None, Some (JStr _), None => true
  | Some (JStr "processed"), Some (JBool true), Some (JBuffer _), None, None => true
  | Some (JStr "processed"), Some (JBool false), None, Some (JStr _), None => true
  | Some (JStr "error"), None, None, None, Some (JStr _) => true
  | _, _, _, _, _ => false
  end.

End Worker.

(** ** Concrete surroundings for the examples *)

Module Examples.

(** An engine that hands its input back. *)
Definition echo_module : WasmModule :=
  {| wasm_processAudio := fun audio _ => inr audio |}.

Definition four_bytes : list Byte.byte := [Byte.x52; Byte.x49; Byte.x46; Byte.x46].

Definition file : App.File :=
  {| App.file_name := "recording.wav"; App.arrayBuffer := inr (JBuffer four_bytes) |}.

(** The page with a file chosen, the engine loaded and given settings. *)
Definition page (settings : gmap string JsVal) : App.State :=
  {| App.audioFile := Some file; App.wasmModule := Some echo_module;
     App.settings := settings; App.audioOutputRef := false |}.

Definition createObjectURL (_ : JsVal) : string := "blob:processed".

(** Settings far outside the ranges: [filterLength = 4096], [stepSize = 5]. *)
Definition out_of_range : gmap string JsVal :=
  {[ "filterLength" := JNum (F64.of_Z 4096);
     "stepSize" := JNum (F64.of_Z 5);
     "showAdvancedSettings" := JBool false ]}.

(** Worker surroundings: loading succeeds, the two conversions pass
    buffers through, integers print in decimal. *)
Definition env : Worker.Env :=
  {| Worker.loadWasmModule := inr echo_module;
     Worker.prepareAudioForProcessing := fun audioData => inr audioData;
     Worker.prepareAudioForPlayback := fun processed =>
       match processed with
       | JBuffer bytes => inr bytes
       | _ => inl "not a buffer"
       end;
     Worker.Number_toString := fun x =>
       match F64.to_Z x with Some z => pretty z | None => "NaN" end |}.

(** Worker surroundings in which the engine cannot be loaded. *)
Definition failing_env : Worker.Env :=
  {| Worker.loadWasmModule := inl "Failed to fetch";
     Worker.prepareAudioForProcessing := Worker.prepareAudioForProcessing env;
     Worker.prepareAudioForPlayback := Worker.prepareAudioForPlayback env;
     Worker.Number_toString := Worker.Number_toString env |}.

(** Engine settings outside the ranges: [filterLength = 4096] and
    [stepSize = 5]. *)
Definition invalid_settings : Engine.ProcessingSettings :=
  {| Engine.filterLength := 4096; Engine.stepSize := F64.of_Z 5 |}.


(** Engine settings in range, a regularization constant of one millionth
    and two short signals. *)
Definition engine_settings : Engine.ProcessingSettings :=
  {| Engine.filterLength := 128; Engine.stepSize := F64.of_ratio 5 100 |}.

Definition epsilon : spec_float := F64.of_ratio 1 1000000.

Definition signal : list spec_float :=
  map (fun k => F64.of_ratio k 10) [1; -2; 3; 5; -7].

Definition earlier_signal : list spec_float :=
  map (fun k => F64.of_ratio k 10) [9; 9; -9].

(** A request as the protocol of the spec would send it, with a [jobId]. *)
Definition request (type : string) (jobId : Z) : JsVal :=
  JObj {[ "type" := JStr type; "jobId" := JNum (F64.of_Z jobId);
          "data" := JBuffer four_bytes; "settings" := JObj App.initial_settings ]}.

End Examples.

(** * Properties of the page *)

Section AppFacts.
Import App.
Variable createObjectURL : JsVal -> string.

(** The floating-point expression of [updateProgress] agrees with integer
    arithmetic at each of the twenty steps. *)
Lemma progress_table k :
  1 <= k <= totalSteps -> progress k = F64.of_Z (Z.min (100 * k / totalSteps) 99).
Proof.
  unfold totalSteps. intros Hk.
  assert (Hcases : k = 1 \/ k = 2 \/ k = 3 \/ k = 4 \/ k = 5 \/ k = 6 \/ k = 7 \/ k = 8
            \/ k = 9 \/ k = 10 \/ k = 11 \/ k = 12 \/ k = 13 \/ k = 14 \/ k = 15
            \/ k = 16 \/ k = 17 \/ k = 18 \/ k = 19 \/ k = 20) by lia.
  repeat (destruct Hcases as [-> | Hcases]; [vm_compute; reflexivity |]).
  subst k. vm_compute. reflexivity.
Qed.

(** Every run of [processAudio], by what the file and the engine do. *)
Lemma processAudio_cases st :
  let t := processAudio createObjectURL st in
  match audioFile st, wasmModule st with
  | Some file, Some module =>
      match arrayBuffer file with
      | inl error =>
          t = [setIsProcessing true; setProcessingProgress (F64.of_Z 0);
               console_error "Error processing audio:" error; setIsProcessing false]
      | inr buf =>
          let s : gmap string JsVal :=
            {[ "filterLength" := prop (settings st) "filterLength";
               "stepSize" := prop (settings st) "stepSize" ]} in
          let pre := [setIsProcessing true; setProcessingProgress (F64.of_Z 0);
                      setProcessingProgress (progress 1); setTimeout 100;
                      call_processAudio buf s] in
          match wasm_processAudio module buf (JObj s) with
          | inl error =>
              t = pre ++ [console_error "Error processing audio:" error;
                          setIsProcessing false]
          | inr out =>
              t = pre
                  ++ flat_map (fun k => [setProcessingProgress (progress k); setTimeout 100])
                       (seqZ 2 19)
                  ++ [setProcessedAudio (createObjectURL out)]
                  ++ (if audioOutputRef st
                      then [set_audioOutput_src (createObjectURL out)] else [])
                  ++ [setProcessingProgress (F64.of_Z 100); setIsProcessing false]
          end
      end
  | _, _ => t = []
  end.
Proof.
  unfold processAudio, processAudio_try.
  destruct (audioFile st) as [file|]; [|reflexivity].
  destruct (wasmModule st) as [module|]; [|reflexivity].
  destruct (arrayBuffer file) as [error|buf]; [reflexivity|].
  cbn -[progress F64.of_Z].
  destruct (wasm_processAudio module buf _) as [error|out]; [reflexivity|].
  destruct (audioOutputRef st); reflexivity.
Qed.

Ltac run_cases st H :=
  pose proof (processAudio_cases st) as H; cbv zeta in H;
  destruct (audioFile st) as [file|]; [|rewrite H];
  [destruct (wasmModule st) as [module|]; [|rewrite H];
   [destruct (arrayBuffer file) as [error|buf]; [rewrite H|];
    [|destruct (wasm_processAudio module buf _) as [error|out]; rewrite H]|]|].

(** The loop over the remaining steps ends by its own test: the bound on
    the iterations never cuts it short. *)
Lemma remaining_steps_exit n : forall currentStep,
  totalSteps - currentStep <= Z.of_nat n ->
  (remaining_steps n currentStep).2 = inr (Z.max currentStep totalSteps).
Proof.
  induction n as [|n IH]; intros c Hn; cbn [remaining_steps].
  - cbn. f_equal. lia.
  - destruct (Z.ltb_spec c totalSteps) as [Hlt|Hge].
    + unfold updateProgress, Trace.bind, Trace.emit, Trace.ret. cbn [app].
      specialize (IH (c + 1) ltac:(lia)).
      destruct (remaining_steps n (c + 1)) as [t r]. cbn [snd] in *.
      rewrite IH. f_equal. lia.
    + cbn. f_equal. lia.
Qed.

Lemma progress_values_app (t1 t2 : list Effect) :
  progress_values (t1 ++ t2) = progress_values t1 ++ progress_values t2.
Proof. unfold progress_values. apply omap_app. Qed.

Lemma reports_of_run st :
  progress_values (processAudio createObjectURL st) `prefix_of` reports.
Proof.
  run_cases st H; try (by eexists).
  exists []. destruct (audioOutputRef st); vm_compute; reflexivity.
Qed.

Lemma reports_increasing st :
  strictly_increasing (progress_values (processAudio createObjectURL st)) = true.
Proof.
  run_cases st H; try reflexivity.
  destruct (audioOutputRef st); vm_compute; reflexivity.
Qed.

Lemma hundred_only_at_completion st :
  In (setProcessingProgress (F64.of_Z 100)) (processAudio createObjectURL st) ->
  exists pre url,
    processAudio createObjectURL st
    = pre ++ [setProcessedAudio url]
          ++ (if audioOutputRef st then [set_audioOutput_src url] else [])
          ++ [setProcessingProgress (F64.of_Z 100); setIsProcessing false]
    /\ forallb (fun p => F64.ltb p (F64.of_Z 100)) (progress_values pre) = true.
Proof.
  pose proof (processAudio_cases st) as H. cbv zeta in H.
  destruct (audioFile st) as [file|]; [|rewrite H; intros []].
  destruct (wasmModule st) as [module|]; [|rewrite H; intros []].
  destruct (arrayBuffer file) as [error|buf].
  { rewrite H. intros Hin. exfalso. vm_compute in Hin.
    repeat (destruct Hin as [Hin|Hin]; [discriminate Hin|]). destruct Hin. }
  destruct (wasm_processAudio module buf _) as [error|out].
  { rewrite H. intros Hin. exfalso. vm_compute in Hin.
    repeat (destruct Hin as [Hin|Hin]; [discriminate Hin|]). destruct Hin. }
  intros _. rewrite H.
  exists ([setIsProcessing true; setProcessingProgress (F64.of_Z 0);
           setProcessingProgress (progress 1); setTimeout 100;
           call_processAudio buf
             {[ "filterLength" := prop (settings st) "filterLength";
                "stepSize" := prop (settings st) "stepSize" ]}]
          ++ flat_map (fun k => [setProcessingProgress (progress k); setTimeout 100])
               (seqZ 2 19)), (createObjectURL out).
  split; [by rewrite <- app_assoc|].
  vm_compute. reflexivity.
Qed.

(** C1 (as amended). After the k-th of the twenty simulated progress
    steps, a fixed count that does not depend on the samples, the reported
    progress is [min (floor (100 * k / 20)) 99]; the reports of a run are
    an initial part of 0, 5, 10, ..., 95, 99, 100, so they stay strictly
    below 100 through all steps; and 100 is reported only at the end of a
    successful run, right after the processed audio has been published. *)
Theorem progress_simulated_in_steps st :
  (forall k, 1 <= k <= totalSteps ->
     progress k = F64.of_Z (Z.min (100 * k / totalSteps) 99))
  /\ progress_values (processAudio createObjectURL st) `prefix_of` reports
  /\ (In (setProcessingProgress (F64.of_Z 100)) (processAudio createObjectURL st) ->
      exists pre url,
        processAudio createObjectURL st
        = pre ++ [setProcessedAudio url]
              ++ (if audioOutputRef st then [set_audioOutput_src url] else [])
              ++ [setProcessingProgress (F64.of_Z 100); setIsProcessing false]
        /\ forallb (fun p => F64.ltb p (F64.of_Z 100)) (progress_values pre) = true).
Proof.
  split; [exact progress_table|].
  split; [apply reports_of_run | apply hundred_only_at_completion].
Qed.

(** The page hands the settings to the engine as they are: whatever
    values they hold, once a file is read [processAudio] has marked the job
    as processing, reported progress 0 and 5, and passes [filterLength] and
    [stepSize] unchanged to the engine's [processAudio], exactly once; an
    error of the engine is only written to the console; and
    [handleSettingChange] stores what the control delivers as it is. Any
    check of the ranges is therefore the engine's. *)
Theorem settings_forwarded_unchecked st file module buf :
  audioFile st = Some file -> wasmModule st = Some module ->
  arrayBuffer file = inr buf ->
  let s : gmap string JsVal :=
    {[ "filterLength" := prop (settings st) "filterLength";
       "stepSize" := prop (settings st) "stepSize" ]} in
  (exists rest,
      processAudio createObjectURL st
      = [setIsProcessing true; setProcessingProgress (F64.of_Z 0);
         setProcessingProgress (F64.of_Z 5); setTimeout 100;
         call_processAudio buf s] ++ rest)
  /\ engine_calls (processAudio createObjectURL st) = [(buf, s)]
  /\ (forall error, wasm_processAudio module buf (JObj s) = inl error ->
      processAudio createObjectURL st
      = [setIsProcessing true; setProcessingProgress (F64.of_Z 0);
         setProcessingProgress (F64.of_Z 5); setTimeout 100;
         call_processAudio buf s;
         console_error "Error processing audio:" error; setIsProcessing false])
  /\ (forall old e,
      handleSettingChange old e !! name e
      = Some (if String.eqb (type e) "checkbox" then JBool (checked e)
              else JStr (value e))).
Proof.
  intros Hf Hm Hb s.
  pose proof (processAudio_cases st) as H. cbv zeta in H.
  rewrite Hf, Hm, Hb in H. fold s in H.
  change (progress 1) with (F64.of_Z 5) in H.
  repeat split.
  - destruct (wasm_processAudio module buf (JObj s)); rewrite H; by eexists.
  - destruct (wasm_processAudio module buf (JObj s)); rewrite H;
      [reflexivity|].
    destruct (audioOutputRef st); reflexivity.
  - intros error He. rewrite He in H. exact H.
  - intros old e. unfold handleSettingChange. apply lookup_insert_eq.
Qed.
End AppFacts.

(** C1, counterexample. With a four-byte file and an engine that hands its
    input back, 5 is reported before the engine has been called at all, every
    report from 10 to 99 comes after the engine has returned the whole
    result, and the twentieth step reports 99 where
    [floor (100 * 20 / 20)] is 100. *)
Lemma progress_not_from_samples :
  App.processAudio Examples.createObjectURL (Examples.page App.initial_settings)
  = [App.setIsProcessing true; App.setProcessingProgress (F64.of_Z 0);
     App.setProcessingProgress (F64.of_Z 5); App.setTimeout 100;
     App.call_processAudio (JBuffer Examples.four_bytes)
       {[ "filterLength" := JNum (F64.of_Z 512); "stepSize" := JNum (F64.of_ratio 5 100) ]}]
    ++ flat_map (fun k => [App.setProcessingProgress (F64.of_Z k); App.setTimeout 100])
         [10; 15; 20; 25; 30; 35; 40; 45; 50; 55; 60; 65; 70; 75; 80; 85; 90; 95; 99]
    ++ [App.setProcessedAudio "blob:processed";
        App.setProcessingProgress (F64.of_Z 100); App.setIsProcessing false]
  /\ App.progress 20 = F64.of_Z 99
  /\ F64.of_Z 99 <> F64.of_Z (100 * 20 / 20).
Proof.
  split; [vm_compute; reflexivity|].
  split; [vm_compute; reflexivity|].
  vm_compute. discriminate.
Qed.

(** [settings_forwarded_unchecked] at settings outside the ranges. *)
Lemma settings_forwarded_unchecked_witness :
  App.engine_calls
    (App.processAudio Examples.createObjectURL (Examples.page Examples.out_of_range))
  = [(JBuffer Examples.four_bytes,
      {[ "filterLength" := JNum (F64.of_Z 4096); "stepSize" := JNum (F64.of_Z 5) ]})].
Proof.
  pose proof (settings_forwarded_unchecked Examples.createObjectURL
                (Examples.page Examples.out_of_range) Examples.file Examples.echo_module
                (JBuffer Examples.four_bytes) eq_refl eq_refl eq_refl) as H.
  exact (proj1 (proj2 H)).
Defined.

(** With an engine that accepts whatever it is given, a run with
    [filterLength = 4096] and [stepSize = 5] goes through to progress 100:
    the page itself raises no validation error. *)
Lemma out_of_range_settings_run :
  App.settings_in_range Examples.out_of_range = false
  /\ App.processAudio Examples.createObjectURL (Examples.page Examples.out_of_range)
     = [App.setIsProcessing true; App.setProcessingProgress (F64.of_Z 0);
        App.setProcessingProgress (F64.of_Z 5); App.setTimeout 100;
        App.call_processAudio (JBuffer Examples.four_bytes)
          {[ "filterLength" := JNum (F64.of_Z 4096); "stepSize" := JNum (F64.of_Z 5) ]}]
       ++ flat_map (fun k => [App.setProcessingProgress (F64.of_Z k); App.setTimeout 100])
            [10; 15; 20; 25; 30; 35; 40; 45; 50; 55; 60; 65; 70; 75; 80; 85; 90; 95; 99]
       ++ [App.setProcessedAudio "blob:processed";
           App.setProcessingProgress (F64.of_Z 100); App.setIsProcessing false].
Proof. split; vm_compute; reflexivity. Qed.

(** The in-range default settings pass the range check of the spec. *)
Example initial_settings_in_range : App.settings_in_range App.initial_settings = true.
Proof. vm_compute. reflexivity. Qed.

(** * Properties of the worker *)

Section WorkerFacts.
Import Worker.
Variable env : Env.

Lemma is_string_false v s : v <> JStr s -> is_string v s = false.
Proof.
  destruct v; try reflexivity. cbn. intros Hne.
  destruct (String.eqb_spec s0 s); congruence.
Qed.

(** Settling the task a delivery has just appended. *)
Lemma settle_new_task st task :
  settle env {| wasmModule := wasmModule st; tasks := tasks st ++ [task] |}
    (length (tasks st))
  = match task with
    | await_loadWasmModule outcome => initWasmModule_resume st outcome
    | await_processAudio outcome => (st, processAudio_resume env outcome)
    end.
Proof.
  unfold settle. cbn [tasks wasmModule].
  rewrite lookup_app_r by lia. rewrite Nat.sub_diag. cbn [lookup list_lookup].
  assert (Hdel : delete (length (tasks st)) (tasks st ++ [task]) = tasks st).
  { induction (tasks st) as [|t ts IH]; [reflexivity|]. cbn. f_equal. exact IH. }
  rewrite Hdel. destruct st as [w ts]. destruct task as [[e|m]|o]; reflexivity.
Qed.

Lemma settle_out_of_range st i :
  (length (tasks st) <= i)%nat -> settle env st i = (st, []).
Proof. intros Hi. unfold settle. by rewrite lookup_ge_None_2. Qed.

Lemma onmessage_process st o :
  prop o "type" = JStr "process" ->
  onmessage env st (JObj o)
  = delivered (processAudio_begin env st (prop o "data") (prop o "settings")).
Proof. intros Ht. unfold onmessage. cbn [destructure]. by rewrite Ht. Qed.

(** Run to completion, a ['process'] request is the source's
    [processAudio]: cutting the function at its [await] changes nothing. *)
Lemma handle_process st o :
  prop o "type" = JStr "process" ->
  handle env st (JObj o)
  = (st, processAudio env (wasmModule st) (prop o "data") (prop o "settings")).
Proof.
  intros Ht. unfold handle. rewrite (onmessage_process _ _ Ht).
  unfold processAudio_begin, processAudio.
  destruct (wasmModule st) as [module|] eqn:Hw.
  2:{ cbn [delivered state posted fst snd]. by rewrite settle_out_of_range. }
  destruct (prepareAudioForProcessing env (prop o "data")) as [error|prepared].
  { cbn [delivered state posted fst snd]. by rewrite settle_out_of_range. }
  cbn [delivered state posted fst snd]. rewrite <- Hw, settle_new_task.
  unfold processAudio_resume, Trace.try_catch, Trace.bind, Trace.await, Trace.ret,
    Trace.emit.
  destruct (wasm_processAudio _ prepared _) as [error|processed];
    [cbn [fst snd app]; reflexivity|].
  destruct (prepareAudioForPlayback env processed) as [error|playback];
    cbn [fst snd app]; reflexivity.
Qed.

Lemma processAudio_one_message w audioData settings :
  exists m, processAudio env w audioData settings = [m]
    /\ ((exists playbackAudio, m = msg_processed playbackAudio)
        \/ (exists error, m = msg_process_failed error)).
Proof.
  unfold processAudio, Trace.try_catch, Trace.bind, Trace.await, Trace.ret,
    Trace.emit, Trace.raise.
  destruct w as [module|];
    [|eexists; split; [reflexivity | right; by eexists]].
  destruct (prepareAudioForProcessing env audioData) as [error|prepared];
    [eexists; split; [reflexivity | right; by eexists]|].
  destruct (wasm_processAudio module prepared settings) as [error|processed];
    [eexists; split; [reflexivity | right; by eexists]|].
  destruct (prepareAudioForPlayback env processed) as [error|playback];
    eexists; (split; [reflexivity|]); [right | left]; by eexists.
Qed.

(** A tag that is neither ['init'] nor ['process'] and prints as [s] takes
    the [default] branch. *)
Lemma onmessage_default st event_data type data settings s :
  destructure event_data = Some (type, data, settings) ->
  type <> JStr "init" -> type <> JStr "process" ->
  ToString env type = Some s ->
  onmessage env st event_data
  = {| state := st; posted := [msg_error ("Unknown message type: " +:+ s)];
       threw := false |}.
Proof.
  intros Hd Hi Hp Hs. unfold onmessage.
  rewrite Hd, (is_string_false _ _ Hi), (is_string_false _ _ Hp), Hs. reflexivity.
Qed.


(** None of the six shapes of message the worker posts has a [jobId]. *)
Lemma posted_without_jobId st ev :
  Forall (fun m : Message => m !! "jobId" = None) (step env st ev).2.
Proof.
  destruct ev as [event_data|i]; cbn [step snd].
  - unfold onmessage. destruct (destructure event_data) as [[[type data] settings]|];
      [|constructor].
    destruct (is_string type "init"); [constructor|].
    destruct (is_string type "process").
    + cbn. unfold processAudio_begin.
      destruct (wasmModule st); [|by repeat constructor].
      destruct (prepareAudioForProcessing env data); by repeat constructor.
    + destruct (ToString env type); by repeat constructor.
  - unfold settle. destruct (tasks st !! i) as [[[error|module]|[error|processed]]|];
      cbn; try (by repeat constructor).
    destruct (prepareAudioForPlayback env processed); by repeat constructor.
Qed.

(** The handler reads [type], [data] and [settings] only. *)
Lemma onmessage_ignores_jobId st o v :
  onmessage env st (JObj (<["jobId" := v]> o)) = onmessage env st (JObj o).
Proof.
  unfold onmessage, destructure, prop.
  by rewrite !lookup_insert_ne.
Qed.
End WorkerFacts.

Section WorkerTheorems.
Import Worker.
Variable env : Env.


(** Where the one reply to a ['process'] request is posted: during the
    delivery, or when the promise of the engine settles, never both. *)
Lemma process_reply_once st o :
  prop o "type" = JStr "process" ->
  let r := onmessage env st (JObj o) in
  (exists m, posted r = [m] /\ state r = st)
  \/ (exists outcome m,
        posted r = []
        /\ tasks (state r) = tasks st ++ [await_processAudio outcome]
        /\ wasmModule (state r) = wasmModule st
        /\ processAudio_resume env outcome = [m]).
Proof.
  intros Ht. rewrite (onmessage_process env st o Ht). unfold processAudio_begin.
  destruct (wasmModule st) as [module|] eqn:Hw; cbn; [|left; eauto].
  destruct (prepareAudioForProcessing env (prop o "data")) as [error|prepared];
    cbn; [left; eauto|].
  right. unfold processAudio_resume.
  destruct (wasm_processAudio module prepared (prop o "settings")) as [error|processed].
  { by eexists _, _. }
  destruct (prepareAudioForPlayback env processed) as [error|playback] eqn:Hpb.
  - eexists (inr processed), _. by rewrite Hpb.
  - eexists (inr processed), _. by rewrite Hpb.
Qed.

(** C2. A ['process'] request gets exactly one terminal message of type
    ['processed'], carrying the data on success and the error on failure;
    it is posted either during the delivery or when the awaited engine call
    settles; the worker posts no progress message. On the page, the
    progress values reported during one run are strictly increasing. *)
Theorem one_result_per_request_increasing_progress
    st o (createObjectURL : JsVal -> string) (page : App.State) :
  prop o "type" = JStr "process" ->
  (exists m,
      (handle env st (JObj o)).2 = [m]
      /\ type_of m = JStr "processed"
      /\ ((exists playbackAudio, m = msg_processed playbackAudio)
          \/ (exists error, m = msg_process_failed error)))
  /\ (let r := onmessage env st (JObj o) in
      (exists m, posted r = [m] /\ state r = st)
      \/ (exists outcome m,
            posted r = []
            /\ tasks (state r) = tasks st ++ [await_processAudio outcome]
            /\ wasmModule (state r) = wasmModule st
            /\ processAudio_resume env outcome = [m]))
  /\ App.strictly_increasing
       (App.progress_values (App.processAudio createObjectURL page)) = true.
Proof.
  intros Ht. split; [|split].
  - rewrite (handle_process env st o Ht). cbn [snd].
    destruct (processAudio_one_message env (wasmModule st) (prop o "data")
                (prop o "settings")) as (m & -> & Hm).
    exists m. split; [reflexivity|]. split; [|exact Hm].
    destruct Hm as [[b ->]|[e ->]]; reflexivity.
  - exact (process_reply_once st o Ht).
  - apply reports_increasing.
Qed.

(** C3 (as amended). No message of the worker carries a [jobId]: not the
    initial ['ready'], and none posted in any step from any state; and the
    handler reads only [type], [data] and [settings], so a [jobId] on a
    request changes nothing. Requests and replies are matched by order
    alone. *)
Theorem no_jobId_on_any_message st ev o v :
  Forall (fun m : Message => m !! "jobId" = None) start.2
  /\ Forall (fun m : Message => m !! "jobId" = None) (step env st ev).2
  /\ onmessage env st (JObj (<["jobId" := v]> o)) = onmessage env st (JObj o).
Proof.
  split; [by repeat constructor|].
  split; [apply posted_without_jobId | apply onmessage_ignores_jobId].
Qed.

(** C4 (as amended). A ['cancel'] message is not a known kind: the worker
    answers it with one ['error'] message and changes nothing, so whatever
    is pending runs on as if the message had not been sent. *)
Theorem cancel_is_not_handled st o evs :
  prop o "type" = JStr "cancel" ->
  onmessage env st (JObj o)
  = {| state := st; posted := [msg_error "Unknown message type: cancel"];
       threw := false |}
  /\ run env st (Deliver (JObj o) :: evs)
     = ((run env st evs).1,
        [msg_error "Unknown message type: cancel"] :: (run env st evs).2).
Proof.
  intros Ht.
  assert (H : onmessage env st (JObj o)
              = {| state := st; posted := [msg_error "Unknown message type: cancel"];
                   threw := false |}).
  { apply (onmessage_default env st (JObj o) (JStr "cancel") (prop o "data")
             (prop o "settings") "cancel");
      [cbn [destructure]; by rewrite Ht | discriminate | discriminate | reflexivity]. }
  split; [exact H|].
  cbn [run step]. rewrite H. cbn [state posted].
  by destruct (run env st evs).
Qed.

(** C5. With no module loaded, a ['process'] request is answered at once
    with the failure 'WASM module not initialized' as its only reply; the
    state is unchanged, nothing is left pending, and neither the conversion
    functions nor the engine are consulted. *)
Theorem process_rejected_when_not_initialized st o :
  wasmModule st = None -> prop o "type" = JStr "process" ->
  onmessage env st (JObj o)
  = {| state := st; posted := [msg_process_failed "WASM module not initialized"];
       threw := false |}
  /\ handle env st (JObj o)
     = (st, [msg_process_failed "WASM module not initialized"])
  /\ (forall audioData settings,
        processAudio env None audioData settings
        = [msg_process_failed "WASM module not initialized"]).
Proof.
  intros Hw Ht. split; [|split].
  - rewrite (onmessage_process env st o Ht). unfold processAudio_begin.
    by rewrite Hw.
  - rewrite (handle_process env st o Ht). by rewrite Hw.
  - reflexivity.
Qed.



(** Outside the protocol: [null] and [undefined] cannot be destructured,
    and a tag that is a cloned object with an own [toString] property
    cannot be printed; the handler then ends in a [TypeError] and posts
    nothing. *)
Remark onmessage_throws st o fields v :
  onmessage env st JNull = {| state := st; posted := []; threw := true |}
  /\ onmessage env st JUndefined = {| state := st; posted := []; threw := true |}
  /\ (prop o "type" = JObj fields -> fields !! "toString" = Some v ->
      onmessage env st (JObj o) = {| state := st; posted := []; threw := true |}).
Proof.
  split; [reflexivity|]. split; [reflexivity|].
  intros Ht Hf. unfold onmessage. cbn [destructure]. rewrite Ht. cbn. by rewrite Hf.
Qed.
End WorkerTheorems.

(** A worker whose module is loaded and that has nothing pending. *)
Example loaded_worker :
  (Worker.run Examples.env Worker.start.1
     [Worker.Deliver (Examples.request "init" 0); Worker.Settle 0]).1
  = {| Worker.wasmModule := Some Examples.echo_module; Worker.tasks := [] |}.
Proof. reflexivity. Qed.

(** Witness for [one_result_per_request_increasing_progress]. *)
Lemma one_result_per_request_witness :
  exists m,
    (Worker.handle Examples.env
       {| Worker.wasmModule := Some Examples.echo_module; Worker.tasks := [] |}
       (Examples.request "process" 7)).2 = [m]
    /\ Worker.type_of m = JStr "processed"
    /\ ((exists playbackAudio, m = Worker.msg_processed playbackAudio)
        \/ (exists error, m = Worker.msg_process_failed error)).
Proof.
  exact (proj1 (one_result_per_request_increasing_progress Examples.env
                  {| Worker.wasmModule := Some Examples.echo_module; Worker.tasks := [] |}
                  {[ "type" := JStr "process"; "jobId" := JNum (F64.of_Z 7);
                     "data" := JBuffer Examples.four_bytes;
                     "settings" := JObj App.initial_settings ]}
                  Examples.createObjectURL (Examples.page App.initial_settings) eq_refl)).
Defined.

(** C3, counterexample. After ['init'], a ['process'] request that carries
    [jobId = 7] is answered by a ['processed'] message without any [jobId];
    neither does the ['init'] reply have one. *)
Lemma replies_carry_no_jobId :
  (Worker.run Examples.env Worker.start.1
     [Worker.Deliver (Examples.request "init" 0); Worker.Settle 0;
      Worker.Deliver (Examples.request "process" 7); Worker.Settle 0]).2
  = [[]; [Worker.msg_init_ok]; []; [Worker.msg_processed Examples.four_bytes]]
  /\ Worker.msg_processed Examples.four_bytes !! "jobId" = None
  /\ Worker.msg_init_ok !! "jobId" = None.
Proof. repeat split; vm_compute; reflexivity. Qed.

(** C4, counterexample. A ['process'] request for job 7 is pending at its
    [await] when ['cancel'] for job 7 arrives: the worker answers
    'Unknown message type: cancel', the request stays pending, and when the
    engine call settles the full result is posted. *)
Lemma cancel_does_not_cancel :
  Worker.run Examples.env
    {| Worker.wasmModule := Some Examples.echo_module; Worker.tasks := [] |}
    [Worker.Deliver (Examples.request "process" 7);
     Worker.Deliver (Examples.request "cancel" 7);
     Worker.Settle 0]
  = ({| Worker.wasmModule := Some Examples.echo_module; Worker.tasks := [] |},
     [[]; [Worker.msg_error "Unknown message type: cancel"];
      [Worker.msg_processed Examples.four_bytes]])
  /\ (Worker.run Examples.env
       {| Worker.wasmModule := Some Examples.echo_module; Worker.tasks := [] |}
       [Worker.Deliver (Examples.request "process" 7);
        Worker.Deliver (Examples.request "cancel" 7)]).1
     = {| Worker.wasmModule := Some Examples.echo_module;
          Worker.tasks := [Worker.await_processAudio (inr (JBuffer Examples.four_bytes))] |}.
Proof. split; vm_compute; reflexivity. Qed.

(** Witness for [cancel_is_not_handled]. *)
Lemma cancel_is_not_handled_witness :
  Worker.onmessage Examples.env
    {| Worker.wasmModule := Some Examples.echo_module; Worker.tasks := [] |}
    (Examples.request "cancel" 7)
  = {| Worker.state :=
         {| Worker.wasmModule := Some Examples.echo_module; Worker.tasks := [] |};
       Worker.posted := [Worker.msg_error "Unknown message type: cancel"];
       Worker.threw := false |}.
Proof.
  exact (proj1 (cancel_is_not_handled Examples.env
                  {| Worker.wasmModule := Some Examples.echo_module; Worker.tasks := [] |}
                  {[ "type" := JStr "cancel"; "jobId" := JNum (F64.of_Z 7);
                     "data" := JBuffer Examples.four_bytes;
                     "settings" := JObj App.initial_settings ]}
                  [] eq_refl)).
Defined.

(** Witness for [process_rejected_when_not_initialized]: the first request
    to a worker that has just started. *)
Lemma process_rejected_witness :
  Worker.handle Examples.env Worker.start.1 (Examples.request "process" 1)
  = (Worker.start.1, [Worker.msg_process_failed "WASM module not initialized"]).
Proof.
  exact (proj1 (proj2 (process_rejected_when_not_initialized Examples.env Worker.start.1
                         {[ "type" := JStr "process"; "jobId" := JNum (F64.of_Z 1);
                            "data" := JBuffer Examples.four_bytes;
                            "settings" := JObj App.initial_settings ]}
                         eq_refl eq_refl))).
Defined.



(** What the worker answers to a message without a [type]. *)
Example untyped_message :
  (Worker.handle Examples.env Worker.start.1 (JObj ∅)).2
  = [Worker.msg_error "Unknown message type: undefined"].
Proof. reflexivity. Qed.

(** * Properties of the filtering engine *)

Section EngineFacts.
Import Engine.
Variable epsilon : spec_float.
Variable chunkSize : nat.

Lemma processSample_error s st x err :
  processSample epsilon s st x = inl err -> err = DivergenceError.
Proof.
  unfold processSample.
  destruct (F64.is_finite _ && forallb F64.is_finite _); congruence.
Qed.

(** A chunk that goes through gives one output per input sample; the only
    way it can fail is divergence. *)
Lemma process_chunk_length s chunk : forall st st' es,
  process_chunk epsilon s st chunk = inr (st', es) -> length es = length chunk.
Proof.
  induction chunk as [|x rest IH]; intros st st' es H; cbn in H.
  - by inversion H.
  - destruct (processSample epsilon s st x) as [err|[st1 e]]; [discriminate|].
    destruct (process_chunk epsilon s st1 rest) as [err|[st2 es']] eqn:Hrest;
      [discriminate|].
    inversion H; subst. cbn. f_equal. by eapply IH.
Qed.

Lemma process_chunk_error s chunk : forall st err,
  process_chunk epsilon s st chunk = inl err -> err = DivergenceError.
Proof.
  induction chunk as [|x rest IH]; intros st err H; cbn in H; [discriminate|].
  destruct (processSample epsilon s st x) as [err'|[st1 e]] eqn:Hx.
  - inversion H; subst. by eapply processSample_error.
  - destruct (process_chunk epsilon s st1 rest) as [err'|[st2 es']] eqn:Hrest.
    + inversion H; subst. by eapply IH.
    + discriminate.
Qed.

Lemma new_job_inv i signal s st : job_inv signal (new_job i signal s st).
Proof.
  destruct signal as [|x signal]; (split; [reflexivity|]); cbn.
  - by exists [].
  - split; [reflexivity|]. split; [by eexists | lia].
Qed.

Lemma job_step_inv signal j :
  (0 < chunkSize)%nat -> job_inv signal j ->
  job_inv signal (job_step epsilon chunkSize j)
  /\ (active (job_step epsilon chunkSize j) = true ->
      (length (outputs j) < length (outputs (job_step epsilon chunkSize j)))%nat).
Proof.
  intros Hc [Hin Hst]. unfold job_step.
  destruct (active j) eqn:Hact; cbn [negb].
  2:{ split; [by split|]. congruence. }
  assert (Ha : cancel_requested j = false /\ (exists st, filter j = Some st)
               /\ (length (outputs j) < length signal)%nat).
  { unfold active in Hact. destruct (status j); try discriminate; exact Hst. }
  destruct Ha as (Hcr & [st Hf] & Hlen). rewrite Hcr, Hf.
  set (chunk := take chunkSize (drop (length (outputs j)) (input j))).
  assert (Hchunk : length chunk
                   = Nat.min chunkSize (length signal - length (outputs j))).
  { unfold chunk. by rewrite length_take, length_drop, Hin. }
  destruct (process_chunk epsilon (settings j) st chunk) as [err|[st' es]] eqn:Hpc.
  - apply process_chunk_error in Hpc. subst err. split; [by split|]. discriminate.
  - apply process_chunk_length in Hpc.
    assert (Hout : length (outputs j ++ es)
                   = (length (outputs j)
                      + Nat.min chunkSize (length signal - length (outputs j)))%nat).
    { by rewrite length_app, Hpc, Hchunk. }
    rewrite Hin.
    destruct (Nat.leb_spec (length signal) (length (outputs j ++ es))) as [Hle|Hlt].
    + split; [|discriminate]. split; [done|]. cbn.
      exists (outputs j ++ es). split; [reflexivity|]. lia.
    + split.
      * split; [done|]. cbn. split; [done|]. split; [by eexists | lia].
      * intros _. cbn. lia.
Qed.

Lemma run_idle n e : busy e = false -> run epsilon chunkSize n e = e.
Proof. intros Hb. destruct n; cbn; [reflexivity | by rewrite Hb]. Qed.

(** With chunks of at least one sample, as many turns of the loop as
    samples remain bring the job to a terminal status. *)
Lemma run_terminates signal n : forall e j,
  (0 < chunkSize)%nat -> slot e = Some j -> job_inv signal j ->
  (length signal - length (outputs j) <= n)%nat ->
  exists j', slot (run epsilon chunkSize n e) = Some j'
             /\ job_inv signal j' /\ active j' = false.
Proof.
  induction n as [|n IH]; intros e j Hc Hs Hinv Hn.
  - cbn. exists j. split; [exact Hs|]. split; [exact Hinv|].
    destruct Hinv as [_ Hst]. unfold active.
    destruct (status j); try reflexivity; lia.
  - cbn [run]. unfold busy. rewrite Hs.
    destruct (active j) eqn:Hact; [|by exists j].
    destruct (job_step_inv signal j Hc Hinv) as [Hinv' Hgrow].
    assert (Hs' : slot (step epsilon chunkSize e) = Some (job_step epsilon chunkSize j)).
    { unfold step. cbn. by rewrite Hs. }
    destruct (active (job_step epsilon chunkSize j)) eqn:Hact'.
    + apply (IH _ _ Hc Hs' Hinv'). specialize (Hgrow eq_refl). lia.
    + rewrite run_idle; [by eexists|]. unfold busy. by rewrite Hs'.
Qed.

(** C7. With valid settings, chunks of at least one sample and a free
    slot, a submitted signal of any length is processed to the end: the job
    either completes, and its result then has exactly as many samples as the
    input, or fails with a divergence error and has no output signal. *)
Theorem output_length_equals_input_length e signal s :
  (0 < chunkSize)%nat -> busy e = false -> valid_settings s = true ->
  exists st r,
    process epsilon chunkSize e signal s = Some (st, r)
    /\ ((st = Completed
         /\ exists out, r = Some (inr out) /\ length out = length signal)
        \/ (st = Failed /\ r = Some (inl DivergenceError))).
Proof.
  intros Hc Hb Hv. unfold process, submit, reset. rewrite Hb, Hv.
  set (st0 := {| coefficients := _; history := _ |}).
  set (e' := {| next_id := _; slot := _ |}).
  destruct (run_terminates signal (length signal) e' (new_job (next_id e) signal s st0))
    as (j' & Hs & [Hin Hst] & Hact); [exact Hc | reflexivity | apply new_job_inv | lia |].
  rewrite Hs. cbn. exists (status j'), (result j'). split; [reflexivity|].
  unfold active in Hact.
  destruct (status j'); try discriminate; [left | right | destruct Hst]; by split.
Qed.

Lemma job_step_content j1 j2 :
  content j1 = content j2 ->
  content (job_step epsilon chunkSize j1) = content (job_step epsilon chunkSize j2).
Proof.
  destruct j1, j2. unfold content. cbn. intros H. inversion H; subst.
  unfold job_step, active. cbn.
  repeat match goal with
         | |- context [match ?x with _ => _ end] => destruct x; cbn
         end; reflexivity.
Qed.

Lemma run_content n : forall e1 e2,
  content <$> slot e1 = content <$> slot e2 ->
  content <$> slot (run epsilon chunkSize n e1)
  = content <$> slot (run epsilon chunkSize n e2).
Proof.
  induction n as [|n IH]; intros e1 e2 H; [exact H|].
  cbn [run].
  assert (Hb : busy e1 = busy e2).
  { unfold busy, active. destruct (slot e1) as [j1|], (slot e2) as [j2|];
      try discriminate; [|reflexivity].
    cbn in H. inversion H as [H']. unfold content in H'. by inversion H'. }
  rewrite <- Hb. destruct (busy e1); [|exact H].
  apply IH. unfold step. cbn.
  destruct (slot e1) as [j1|], (slot e2) as [j2|]; try discriminate; [|reflexivity].
  cbn in *. f_equal. apply job_step_content. apply (inj Some). exact H.
Qed.

Lemma process_free_slot e signal s :
  busy e = false ->
  process epsilon chunkSize e signal s = process epsilon chunkSize init signal s.
Proof.
  intros Hb. unfold process, submit. rewrite Hb. cbn [busy init slot].
  destruct (reset s) as [err|st0]; [reflexivity|].
  match goal with
  | |- _ <$> slot (run _ _ _ ?a) = _ <$> slot (run _ _ _ ?b) =>
      pose proof (run_content (length signal) a b) as H
  end.
  cbn [slot] in H. specialize (H ltac:(by destruct signal)).
  destruct (slot (run _ _ _ _)) as [j1|], (slot (run _ _ _ _)) as [j2|];
    try discriminate; [|reflexivity].
  cbn in *. inversion H as [H']. unfold content in H'. by inversion H'.
Qed.

(** Once a submitted job has been run to its end the slot is free again. *)
Lemma slot_free_after_job e signal s :
  (0 < chunkSize)%nat -> busy e = false ->
  busy (run epsilon chunkSize (length signal) (submit e signal s).1) = false.
Proof.
  intros Hc Hb. unfold submit. rewrite Hb.
  destruct (reset s) as [err|st0]; cbn [fst].
  - by rewrite run_idle.
  - set (e' := {| next_id := _; slot := _ |}).
    destruct (run_terminates signal (length signal) e' (new_job (next_id e) signal s st0))
      as (j' & Hs & _ & Hact); [exact Hc | reflexivity | apply new_job_inv | lia |].
    unfold busy. by rewrite Hs.
Qed.

(** C8. Processing is a function of the signal and the settings alone:
    on any instance whose slot is free, whatever jobs it has run before, a
    job gives the same status and the same result, sample for sample, as on
    a freshly initialized instance; in particular the job that follows
    another job on the same instance does. *)
Theorem result_independent_of_history e previous previous_settings signal s :
  (0 < chunkSize)%nat -> busy e = false ->
  process epsilon chunkSize e signal s = process epsilon chunkSize init signal s
  /\ process epsilon chunkSize
       (run epsilon chunkSize (length previous) (submit e previous previous_settings).1)
       signal s
     = process epsilon chunkSize init signal s.
Proof.
  intros Hc Hb. split; [by apply process_free_slot|].
  apply process_free_slot. by apply slot_free_after_job.
Qed.

Lemma valid_settings_false s :
  valid_settings s = false
  <-> (filterLength s < 128 \/ 2048 < filterLength s \/ filterLength s mod 128 <> 0
       \/ F64.ltb (F64.of_Z 0) (stepSize s) = false
       \/ F64.leb (stepSize s) (F64.of_ratio 2 10) = false).
Proof.
  unfold valid_settings. rewrite !andb_false_iff, Z.leb_gt, Z.leb_gt, Z.eqb_neq.
  tauto.
Qed.

(** C6. Settings are validated before a job exists. Settings are invalid
    when [filterLength] is below 128, above 2048 or not a multiple of 128, or
    [stepSize] is not in (0, 0.2] (NaN included). [reset] fails with a
    validation error for exactly these. Submitting a signal with invalid
    settings creates no job: the instance, its slot and its job counter, is
    left as it was, the answer is [ValidationError] when the slot is free
    (and [Busy], which [submit] checks first, when a job is running), and
    nothing is processed. A validation error is the answer only to invalid
    settings. *)
Theorem invalid_settings_create_no_job e signal s :
  let invalid :=
    filterLength s < 128 \/ 2048 < filterLength s \/ filterLength s mod 128 <> 0
    \/ F64.ltb (F64.of_Z 0) (stepSize s) = false
    \/ F64.leb (stepSize s) (F64.of_ratio 2 10) = false in
  (invalid <-> reset s = inl ValidationError)
  /\ (invalid ->
      (busy e = false -> submit e signal s = (e, inl ValidationError))
      /\ (busy e = true -> submit e signal s = (e, inl Busy))
      /\ (submit e signal s).1 = e
      /\ process epsilon chunkSize e signal s = None)
  /\ ((submit e signal s).2 = inl ValidationError <-> busy e = false /\ invalid).
Proof.
  cbv zeta. rewrite <- valid_settings_false.
  assert (Hreset : valid_settings s = false <-> reset s = inl ValidationError).
  { unfold reset. destruct (valid_settings s); split; congruence. }
  split; [exact Hreset|]. split.
  - intros Hv. unfold process, submit, reset. rewrite Hv.
    destruct (busy e); repeat split; congruence.
  - unfold submit, reset. destruct (busy e); [cbn; split; [discriminate | by intros [? _]]|].
    destruct (valid_settings s); cbn; split; try done; by intros [_ ?].
Qed.
End EngineFacts.

(** Witness for [invalid_settings_create_no_job]: a filter length of 4096
    and a step size of 5 on a fresh instance. *)
Lemma invalid_settings_witness :
  Engine.submit Engine.init Examples.signal Examples.invalid_settings
  = (Engine.init, inl Engine.ValidationError)
  /\ Engine.process Examples.epsilon 2 Engine.init Examples.signal Examples.invalid_settings
     = None.
Proof.
  assert (Hlen : 2048 < Engine.filterLength Examples.invalid_settings) by reflexivity.
  pose proof (proj1 (proj2 (invalid_settings_create_no_job Examples.epsilon 2 Engine.init
                              Examples.signal Examples.invalid_settings))
                (or_intror (or_introl Hlen))) as H.
  exact (conj (proj1 H eq_refl) (proj2 (proj2 (proj2 H)))).
Defined.

(** While a job is in the slot, a submission is answered with [Busy]
    whatever its settings, and creates no job either. *)
Example busy_instance_creates_no_job :
  let e := (Engine.submit Engine.init Examples.signal Examples.engine_settings).1 in
  Engine.busy e = true
  /\ Engine.submit e Examples.signal Examples.invalid_settings = (e, inl Engine.Busy).
Proof. split; reflexivity. Qed.

(** Witness for [output_length_equals_input_length]: five samples in chunks
    of two. *)
Lemma output_length_witness :
  exists st r,
    Engine.process Examples.epsilon 2 Engine.init Examples.signal Examples.engine_settings
    = Some (st, r)
    /\ ((st = Engine.Completed
         /\ exists out, r = Some (inr out) /\ length out = length Examples.signal)
        \/ (st = Engine.Failed /\ r = Some (inl Engine.DivergenceError))).
Proof.
  apply (output_length_equals_input_length Examples.epsilon 2 Engine.init Examples.signal
           Examples.engine_settings); [lia | reflexivity | vm_compute; reflexivity].
Defined.

(** The five samples do complete, with five output samples. *)
Example five_samples_complete :
  (fun r => match r with
            | Some (Engine.Completed, Some (inr out)) => Some (length out)
            | _ => None
            end)
    (Engine.process Examples.epsilon 2 Engine.init Examples.signal Examples.engine_settings)
  = Some 5%nat.
Proof. vm_compute. reflexivity. Qed.

(** Witness for [result_independent_of_history]: the same signal after an
    earlier job and on a fresh instance. *)
Lemma result_independent_witness :
  Engine.process Examples.epsilon 2 Engine.init Examples.signal Examples.engine_settings
  = Engine.process Examples.epsilon 2 Engine.init Examples.signal Examples.engine_settings
  /\ Engine.process Examples.epsilon 2
       (Engine.run Examples.epsilon 2 (length Examples.earlier_signal)
          (Engine.submit Engine.init Examples.earlier_signal Examples.engine_settings).1)
       Examples.signal Examples.engine_settings
     = Engine.process Examples.epsilon 2 Engine.init Examples.signal
         Examples.engine_settings.
Proof.
  apply (result_independent_of_history Examples.epsilon 2 Engine.init
           Examples.earlier_signal Examples.engine_settings Examples.signal
           Examples.engine_settings); [lia | reflexivity].
Defined.

(** * Rounding never loses a number that is not tiny *)

(** Linear arithmetic with the powers of two taken as unknowns. *)
Ltac pow_lia :=
  repeat match goal with
         | |- context [2 ^ ?e] => let z := fresh "pw" in set (z := 2 ^ e) in *; clearbody z
         | H : context [2 ^ ?e] |- _ =>
             let z := fresh "pw" in set (z := 2 ^ e) in *; clearbody z
         end;
  lia.

Section RoundingFacts.
Variables prec emax : Z.
Hypothesis prec_pos : 0 < prec.

Lemma digits2_pos_bounds p :
  2 ^ (Zpos (digits2_pos p) - 1) <= Zpos p < 2 ^ Zpos (digits2_pos p).
Proof.
  induction p as [p IH|p IH|]; cbn [digits2_pos].
  - rewrite Pos2Z.inj_succ. change (Zpos p~1) with (2 * Zpos p + 1).
    replace (Z.succ (Zpos (digits2_pos p)) - 1) with (Z.succ (Zpos (digits2_pos p) - 1)) by lia.
    rewrite !Z.pow_succ_r by lia. pow_lia.
  - rewrite Pos2Z.inj_succ. change (Zpos p~0) with (2 * Zpos p).
    replace (Z.succ (Zpos (digits2_pos p)) - 1) with (Z.succ (Zpos (digits2_pos p) - 1)) by lia.
    rewrite !Z.pow_succ_r by lia. pow_lia.
  - cbn. lia.
Qed.

Lemma digits2_pos_ge p k : 0 <= k -> 2 ^ k <= Zpos p -> k + 1 <= Zpos (digits2_pos p).
Proof.
  intros Hk Hle. pose proof (digits2_pos_bounds p) as [_ Hlt].
  assert (H : 2 ^ k < 2 ^ Zpos (digits2_pos p)) by lia.
  apply Z.pow_lt_mono_r_iff in H; lia.
Qed.

Lemma digits2_pos_le p k : 0 <= k -> Zpos p < 2 ^ k -> Zpos (digits2_pos p) <= k.
Proof.
  intros Hk Hlt. pose proof (digits2_pos_bounds p) as [Hle _].
  assert (H : 2 ^ (Zpos (digits2_pos p) - 1) < 2 ^ k) by lia.
  apply Z.pow_lt_mono_r_iff in H; lia.
Qed.

Lemma digits2_pos_mono p q :
  Zpos p <= Zpos q -> Zpos (digits2_pos p) <= Zpos (digits2_pos q).
Proof.
  intros Hle. pose proof (digits2_pos_bounds p) as [Hp _].
  pose proof (digits2_pos_ge q (Zpos (digits2_pos p) - 1)). lia.
Qed.

(** Shifting right by [n] places divides the mantissa by [2 ^ n]. *)
Lemma shr_1_m mrs : 0 <= shr_m mrs -> shr_m (shr_1 mrs) = shr_m mrs / 2.
Proof.
  destruct mrs as [m r s]. cbn [shr_m]. intros Hm.
  destruct m as [|[p|p|]|p]; cbn [shr_1 shr_m]; try reflexivity; try lia.
  - apply Z.div_unique with 1; lia.
  - apply Z.div_unique with 0; lia.
Qed.

Lemma iter_shr_1_m n : forall mrs,
  0 <= shr_m mrs -> shr_m (SpecFloat.iter_pos shr_1 n mrs) = shr_m mrs / 2 ^ Zpos n.
Proof.
  assert (Hnn : forall mrs, 0 <= shr_m mrs -> 0 <= shr_m (shr_1 mrs)).
  { intros mrs H. rewrite shr_1_m by exact H. apply Z.div_pos; lia. }
  induction n as [n IH|n IH|]; intros mrs Hm; cbn [SpecFloat.iter_pos].
  - assert (H1 := Hnn _ Hm).
    assert (H2 : 0 <= shr_m (SpecFloat.iter_pos shr_1 n (shr_1 mrs))).
    { rewrite IH by exact H1. apply Z.div_pos; lia. }
    assert (H2n : 0 < 2 ^ Zpos n) by (apply Z.pow_pos_nonneg; lia).
    rewrite (IH _ H2), (IH _ H1), shr_1_m by exact Hm.
    rewrite !Z.div_div by lia. f_equal.
    replace (Zpos n~1) with (1 + Zpos n + Zpos n) by lia.
    rewrite !Z.pow_add_r by lia. change (2 ^ 1) with 2. ring.
  - assert (H2 : 0 <= shr_m (SpecFloat.iter_pos shr_1 n mrs)).
    { rewrite IH by exact Hm. apply Z.div_pos; lia. }
    assert (H2n : 0 < 2 ^ Zpos n) by (apply Z.pow_pos_nonneg; lia).
    rewrite (IH _ H2), (IH _ Hm). rewrite Z.div_div by lia. f_equal.
    replace (Zpos n~0) with (Zpos n + Zpos n) by lia.
    rewrite Z.pow_add_r by lia. reflexivity.
  - rewrite shr_1_m by exact Hm. reflexivity.
Qed.

(** A mantissa of [d] digits shifted by fewer than [d] places keeps
    [d - n] digits. *)
Lemma shift_digits p n :
  0 < n < Zpos (digits2_pos p) ->
  exists q, Zpos p / 2 ^ n = Zpos q
            /\ Zpos (digits2_pos q) = Zpos (digits2_pos p) - n.
Proof.
  intros Hn. pose proof (digits2_pos_bounds p) as [Hlo Hhi].
  set (d := Zpos (digits2_pos p)) in *.
  assert (Hpow : 2 ^ (d - 1) = 2 ^ (d - 1 - n) * 2 ^ n).
  { rewrite <- Z.pow_add_r by lia. f_equal. lia. }
  assert (Hpow' : 2 ^ d = 2 ^ (d - n) * 2 ^ n).
  { rewrite <- Z.pow_add_r by lia. f_equal. lia. }
  assert (H2n : 0 < 2 ^ n) by (apply Z.pow_pos_nonneg; lia).
  assert (Hq1 : 2 ^ (d - 1 - n) <= Zpos p / 2 ^ n).
  { apply Z.div_le_lower_bound; lia. }
  assert (Hq2 : Zpos p / 2 ^ n < 2 ^ (d - n)).
  { apply Z.div_lt_upper_bound; lia. }
  assert (Hpos : 0 < 2 ^ (d - 1 - n)) by (apply Z.pow_pos_nonneg; lia).
  destruct (Zpos p / 2 ^ n) as [|q|q] eqn:Hq; try lia.
  exists q. split; [reflexivity|].
  pose proof (digits2_pos_ge q (d - 1 - n)). pose proof (digits2_pos_le q (d - n)). lia.
Qed.

Lemma shr_record_of_loc_m m l : shr_m (shr_record_of_loc m l) = m.
Proof. destruct l as [|[]]; reflexivity. Qed.

(** The first step of rounding: the mantissa stays positive and the
    magnitude [digits + exponent] is unchanged, provided the number is above
    the smallest subnormal. *)
Lemma shr_fexp_magnitude p e l :
  emin prec emax < Zpos (digits2_pos p) + e ->
  exists q e',
    shr_m (shr_fexp prec emax (Zpos p) e l).1 = Zpos q
    /\ (shr_fexp prec emax (Zpos p) e l).2 = e'
    /\ Zpos (digits2_pos q) + e' = Zpos (digits2_pos p) + e.
Proof.
  intros Hmag. unfold shr_fexp, shr. cbn [Zdigits2].
  set (n := fexp prec emax (Zpos (digits2_pos p) + e) - e).
  assert (Hn : n < Zpos (digits2_pos p)) by (unfold n, fexp; lia).
  destruct n as [|k|k] eqn:Hk; cbn [fst snd].
  - exists p, e. by rewrite shr_record_of_loc_m.
  - rewrite iter_shr_1_m, shr_record_of_loc_m
      by (rewrite shr_record_of_loc_m; lia).
    destruct (shift_digits p (Zpos k)) as (q & Hq & Hd); [lia|].
    exists q, (e + Zpos k). rewrite Hq. repeat split. lia.
  - exists p, e. by rewrite shr_record_of_loc_m.
Qed.

Lemma round_nearest_even_pos q l :
  exists q', round_nearest_even (Zpos q) l = Zpos q'
             /\ Zpos (digits2_pos q) <= Zpos (digits2_pos q').
Proof.
  assert (Hs : exists q', Zpos q + 1 = Zpos q'
                          /\ Zpos (digits2_pos q) <= Zpos (digits2_pos q')).
  { exists (q + 1)%positive. split; [lia|]. apply digits2_pos_mono. lia. }
  destruct l as [|[]]; cbn [round_nearest_even];
    try (exists q; split; [reflexivity | lia]); try exact Hs.
  destruct (Z.even (Zpos q)); [exists q; split; [reflexivity | lia] | exact Hs].
Qed.

(** Rounding a mantissa above the smallest subnormal gives a number that is
    not zero and not smaller in magnitude, or overflows to infinity. *)
Lemma binary_round_aux_at_least s p e l :
  emin prec emax < Zpos (digits2_pos p) + e ->
  at_least s (Zpos (digits2_pos p) + e) (binary_round_aux prec emax s (Zpos p) e l).
Proof.
  intros Hmag. unfold binary_round_aux.
  destruct (shr_fexp_magnitude p e l Hmag) as (q & e' & Hq & He' & Hd).
  destruct (shr_fexp prec emax (Zpos p) e l) as [mrs1 e1]. cbn [fst snd] in *. subst e1.
  rewrite Hq.
  destruct (round_nearest_even_pos q (loc_of_shr_record mrs1)) as (q' & -> & Hq').
  destruct (shr_fexp_magnitude q' e' loc_Exact) as (q2 & e2 & Hq2 & He2 & Hd2); [lia|].
  destruct (shr_fexp prec emax (Zpos q') e' loc_Exact) as [mrs2 e2']. cbn [fst snd] in *.
  subst e2'. rewrite Hq2.
  destruct (e2 <=? emax - prec); cbn; [split; [reflexivity | lia] | reflexivity].
Qed.

Lemma at_least_weaken s k k' x : k' <= k -> at_least s k x -> at_least s k' x.
Proof. destruct x as [| | |s' m e]; cbn; try tauto. intros ? [? ?]. split; [done | lia]. Qed.

(** Multiplying a mantissa by a power of two adds to its digits. *)
Lemma digits2_pos_shift m q k :
  0 <= k -> Zpos q = Zpos m * 2 ^ k ->
  Zpos (digits2_pos q) = Zpos (digits2_pos m) + k.
Proof.
  intros Hk Hq. pose proof (digits2_pos_bounds m) as [Hlo Hhi].
  set (d := Zpos (digits2_pos m)) in *.
  assert (H2k : 0 < 2 ^ k) by (apply Z.pow_pos_nonneg; lia).
  assert (H1 : 2 ^ (d + k - 1) <= Zpos q).
  { replace (d + k - 1) with (d - 1 + k) by lia. rewrite Z.pow_add_r, Hq by lia.
    apply Z.mul_le_mono_nonneg_r; lia. }
  assert (H2 : Zpos q < 2 ^ (d + k)).
  { rewrite Z.pow_add_r, Hq by lia. apply Z.mul_lt_mono_pos_r; lia. }
  pose proof (digits2_pos_ge q (d + k - 1)). pose proof (digits2_pos_le q (d + k)). lia.
Qed.

Lemma iter_xO_pow m d : Zpos (Pos.iter xO m d) = Zpos m * 2 ^ Zpos d.
Proof.
  induction d as [|d IH] using Pos.peano_ind.
  - cbn. lia.
  - rewrite Pos.iter_succ, Pos2Z.inj_succ, Z.pow_succ_r by lia.
    change (Zpos (Pos.iter xO m d)~0) with (2 * Zpos (Pos.iter xO m d)).
    rewrite IH. ring.
Qed.

(** Aligning to a smaller exponent keeps the value, hence the magnitude. *)
Lemma shl_align_magnitude m e e' :
  Zpos (digits2_pos (shl_align m e e').1) + (shl_align m e e').2
  = Zpos (digits2_pos m) + e.
Proof.
  unfold shl_align. destruct (e' - e) as [|k|k] eqn:Hk; cbn [fst snd]; try reflexivity.
  rewrite (digits2_pos_shift m _ (Zpos k)); [lia | lia | apply iter_xO_pow].
Qed.

Lemma shl_align_le m e e' :
  e' <= e ->
  (shl_align m e e').2 = e' /\ Zpos (shl_align m e e').1 = Zpos m * 2 ^ (e - e').
Proof.
  intros Hle. unfold shl_align. destruct (e' - e) as [|k|k] eqn:Hk; cbn [fst snd]; try lia.
  - replace (e - e') with 0 by lia. split; lia.
  - rewrite iter_xO_pow. replace (e - e') with (Zpos k) by lia. split; lia.
Qed.

Lemma binary_round_at_least s m e :
  emin prec emax < Zpos (digits2_pos m) + e ->
  at_least s (Zpos (digits2_pos m) + e) (binary_round prec emax s m e).
Proof.
  intros Hmag. unfold binary_round.
  pose proof (shl_align_magnitude m e (fexp prec emax (Zpos (digits2_pos m) + e))) as Hal.
  destruct (shl_align m e _) as [mz ez]. cbn [fst snd] in Hal.
  rewrite <- Hal. apply binary_round_aux_at_least. lia.
Qed.

(** The square of a number that is not zero is positive and not tiny. *)
Lemma mul_self_at_least s m e :
  emin prec emax < 2 * (Zpos (digits2_pos m) + e) - 1 ->
  at_least false (2 * (Zpos (digits2_pos m) + e) - 1)
    (SFmul prec emax (S754_finite s m e) (S754_finite s m e)).
Proof.
  intros Hmag. cbn [SFmul]. rewrite xorb_nilpotent.
  pose proof (digits2_pos_bounds m) as [Hlo _].
  set (d := Zpos (digits2_pos m)) in *.
  assert (Hd : 2 * d - 1 <= Zpos (digits2_pos (m * m))).
  { pose proof (digits2_pos_ge (m * m) (d - 1 + (d - 1))) as H.
    rewrite Z.pow_add_r, Pos2Z.inj_mul in H by lia.
    assert (0 < 2 ^ (d - 1)) by (apply Z.pow_pos_nonneg; lia).
    assert (2 ^ (d - 1) * 2 ^ (d - 1) <= Zpos m * Zpos m) by nia. lia. }
  eapply at_least_weaken; [|apply binary_round_aux_at_least]; lia.
Qed.

(** Adding two positive numbers gives at least the first. *)
Lemma add_at_least m1 e1 m2 e2 :
  emin prec emax < Zpos (digits2_pos m1) + e1 ->
  at_least false (Zpos (digits2_pos m1) + e1)
    (SFadd prec emax (S754_finite false m1 e1) (S754_finite false m2 e2)).
Proof.
  intros Hmag. cbn [SFadd cond_Zopp].
  set (ez := Z.min e1 e2).
  pose proof (shl_align_magnitude m1 e1 ez) as Hm1.
  destruct (shl_align_le m1 e1 ez) as [He1 _]; [lia|].
  destruct (shl_align m1 e1 ez) as [m1' e1']. cbn [fst snd] in *. subst e1'.
  destruct (shl_align m2 e2 ez) as [m2' e2']. cbn [fst snd].
  change (Zpos m1' + Zpos m2') with (Zpos (m1' + m2')). cbn [binary_normalize].
  assert (Hd : Zpos (digits2_pos m1') <= Zpos (digits2_pos (m1' + m2'))).
  { apply digits2_pos_mono. lia. }
  eapply at_least_weaken; [|apply binary_round_at_least]; lia.
Qed.

(** A mantissa that already has its canonical exponent is not touched. *)
Lemma binary_round_aux_canonical s m e :
  fexp prec emax (Zpos (digits2_pos m) + e) = e ->
  binary_round_aux prec emax s (Zpos m) e loc_Exact
  = if e <=? emax - prec then S754_finite s m e else S754_infinity s.
Proof.
  intros Hc. unfold binary_round_aux, shr_fexp. cbn [Zdigits2 shr_record_of_loc].
  rewrite Hc, Z.sub_diag. cbn [shr shr_m loc_of_shr_record round_nearest_even Zdigits2].
  rewrite Hc, Z.sub_diag. reflexivity.
Qed.

(** An integer of at most [prec] digits is a number, with its own
    magnitude. *)
Lemma binary_normalize_small n :
  prec <= emax -> emin prec emax <= 0 ->
  0 < n < 2 ^ prec ->
  exists m e, binary_normalize prec emax n 0 false = S754_finite false m e
              /\ 0 < Zpos (digits2_pos m) + e <= prec.
Proof.
  intros Hpe Hemin Hn. destruct n as [|p|p]; try lia. cbn [binary_normalize].
  unfold binary_round.
  pose proof (digits2_pos_le p prec ltac:(lia) ltac:(lia)) as Hd.
  set (d := Zpos (digits2_pos p)) in *.
  assert (Hf : fexp prec emax (d + 0) <= 0) by (unfold fexp; lia).
  pose proof (shl_align_magnitude p 0 (fexp prec emax (d + 0))) as Hmag.
  destruct (shl_align_le p 0 (fexp prec emax (d + 0)) Hf) as [He _].
  destruct (shl_align p 0 _) as [mz ez]. cbn [fst snd] in *. fold d in Hmag.
  rewrite binary_round_aux_canonical by (rewrite Hmag; exact (eq_sym He)).
  assert (Hez : ez <= emax - prec) by (unfold fexp in *; lia).
  apply Z.leb_le in Hez. rewrite Hez. exists mz, ez. split; [reflexivity | lia].
Qed.

(** The quotient of two numbers is not zero when the difference of their
    magnitudes is above the smallest subnormal. *)
Lemma div_at_least s1 m1 e1 s2 m2 e2 :
  let M := Zpos (digits2_pos m1) + e1 - (Zpos (digits2_pos m2) + e2) in
  emin prec emax < M ->
  at_least (xorb s1 s2) M
    (SFdiv prec emax (S754_finite s1 m1 e1) (S754_finite s2 m2 e2)).
Proof.
  intros M HM. cbn [SFdiv]. unfold SFdiv_core_binary. cbn [Zdigits2]. fold M.
  pose proof (digits2_pos_bounds m1) as [Hlo1 _].
  pose proof (digits2_pos_bounds m2) as [_ Hhi2].
  set (d1 := Zpos (digits2_pos m1)) in *. set (d2 := Zpos (digits2_pos m2)) in *.
  set (e' := Z.min (fexp prec emax M) (e1 - e2)).
  set (sh := e1 - e2 - e').
  assert (Hsh : 0 <= sh) by (unfold sh, e'; lia).
  assert (Ht : 0 <= d1 + sh - 1 - d2) by (unfold sh, e', fexp, M in *; lia).
  set (m' := match sh with Zpos _ => Z.shiftl (Zpos m1) sh | 0 => Zpos m1 | Zneg _ => 0 end).
  assert (Hm' : m' = Zpos m1 * 2 ^ sh).
  { unfold m'. destruct sh; [lia | by rewrite Z.shiftl_mul_pow2 | lia]. }
  assert (Hq : 2 ^ (d1 + sh - 1 - d2) <= m' / Zpos m2).
  { apply Z.div_le_lower_bound; [lia|].
    assert (H2s : 0 < 2 ^ sh) by (apply Z.pow_pos_nonneg; lia).
    assert (H2t : 0 < 2 ^ (d1 + sh - 1 - d2)) by (apply Z.pow_pos_nonneg; lia).
    assert (Hsplit : 2 ^ (d1 - 1) * 2 ^ sh = 2 ^ d2 * 2 ^ (d1 + sh - 1 - d2)).
    { rewrite <- !Z.pow_add_r by lia. f_equal. lia. }
    rewrite Hm'.
    transitivity (2 ^ d2 * 2 ^ (d1 + sh - 1 - d2)).
    - apply Z.mul_le_mono_nonneg_r; lia.
    - rewrite <- Hsplit. apply Z.mul_le_mono_nonneg_r; lia. }
  unfold Z.div in Hq. destruct (Z.div_eucl m' (Zpos m2)) as [q r]. cbn [fst] in Hq.
  assert (H2t : 0 < 2 ^ (d1 + sh - 1 - d2)) by (apply Z.pow_pos_nonneg; lia).
  destruct q as [|q|q]; try lia.
  pose proof (digits2_pos_ge q _ Ht Hq) as Hdq.
  eapply at_least_weaken; [|apply binary_round_aux_at_least]; unfold sh in *; lia.
Qed.

(** The square root of a positive number is not zero. *)
Lemma sqrt_at_least m e :
  2 * emin prec emax < Zpos (digits2_pos m) + e ->
  exists k, at_least false k (SFsqrt prec emax (S754_finite false m e)).
Proof.
  intros HM. cbn [SFsqrt]. unfold SFsqrt_core_binary. cbn [Zdigits2].
  pose proof (digits2_pos_bounds m) as [Hlo _].
  set (d := Zpos (digits2_pos m)) in *.
  set (e' := Z.min (fexp prec emax (Z.div2 (d + e + 1))) (Z.div2 e)).
  set (sh := e - 2 * e').
  assert (Hdiv2 : 2 * Z.div2 e <= e).
  { rewrite Z.div2_div. apply Z.mul_div_le. lia. }
  assert (Hsh : 0 <= sh) by (unfold sh, e'; lia).
  set (m' := match sh with Zpos _ => Z.shiftl (Zpos m) sh | 0 => Zpos m | Zneg _ => 0 end).
  assert (Hm' : m' = Zpos m * 2 ^ sh).
  { unfold m'. destruct sh; [lia | by rewrite Z.shiftl_mul_pow2 | lia]. }
  set (t := (d + sh - 1) / 2).
  assert (Ht : 0 <= t) by (apply Z.div_pos; lia).
  assert (H2t : 2 * t <= d + sh - 1) by (apply Z.mul_div_le; lia).
  assert (Hpow : 2 ^ t * 2 ^ t <= m').
  { rewrite <- Z.pow_add_r, Hm' by lia.
    assert (H2s : 0 < 2 ^ sh) by (apply Z.pow_pos_nonneg; lia).
    transitivity (2 ^ (d - 1) * 2 ^ sh).
    - rewrite <- Z.pow_add_r by lia. apply Z.pow_le_mono_r; lia.
    - apply Z.mul_le_mono_nonneg_r; lia. }
  assert (Hq : 2 ^ t <= Z.sqrt m').
  { rewrite <- (Z.sqrt_square (2 ^ t)) by (apply Z.pow_nonneg; lia).
    apply Z.sqrt_le_mono. exact Hpow. }
  pose proof (Z.sqrtrem_sqrt m') as Hfst.
  destruct (Z.sqrtrem m') as [q r]. cbn [fst] in Hfst. subst q.
  assert (H2t' : 0 < 2 ^ t) by (apply Z.pow_pos_nonneg; lia).
  destruct (Z.sqrt m') as [|q|q]; try lia.
  pose proof (digits2_pos_ge q _ Ht Hq) as Hdq.
  eexists. apply binary_round_aux_at_least.
  assert (2 * t >= d + sh - 2).
  { pose proof (Z.mod_pos_bound (d + sh - 1) 2 ltac:(lia)).
    pose proof (Z.div_mod (d + sh - 1) 2 ltac:(lia)). unfold t. lia. }
  unfold sh in *. lia.
Qed.
End RoundingFacts.

(** * Properties of the audio helpers *)

Section AudioFacts.
Import AudioUtils.

(** The element-by-element loop of [normalizeAudio] is a [map]. *)
Lemma normalize_loop_map gain n : forall i buffer out,
  (i + n = length buffer)%nat -> length out = length buffer ->
  normalize_loop n i buffer gain out
  = take i out
    ++ map (fun x => F32.fround (F64.mul (F32.to_number x) gain)) (drop i buffer).
Proof.
  induction n as [|n IH]; intros i buffer out Hi Hlen; cbn [normalize_loop].
  - rewrite Nat.add_0_r in Hi. subst i.
    rewrite drop_all, app_nil_r, <- Hlen. by rewrite take_ge.
  - assert (Hlt : (i < length buffer)%nat) by lia.
    rewrite IH by (rewrite ?length_insert; lia).
    destruct (lookup_lt_is_Some_2 buffer i Hlt) as [x Hx].
    rewrite (list_lookup_total_correct _ _ _ Hx).
    rewrite (drop_S _ _ _ Hx). cbn [map].
    rewrite (take_S_r _ _ (F32.fround (F64.mul (F32.to_number x) gain)))
      by (apply list_lookup_insert_eq; lia).
    rewrite take_insert_ge by lia. by rewrite <- app_assoc.
Qed.

Lemma normalizeAudio_map buffer targetRMS :
  normalizeAudio buffer targetRMS
  = map (fun x => F32.fround (F64.mul (F32.to_number x) (gain buffer targetRMS))) buffer.
Proof.
  unfold normalizeAudio. rewrite normalize_loop_map by (rewrite ?length_replicate; lia).
  reflexivity.
Qed.

Lemma to_number_representable x :
  F32.representable x = true ->
  match x with
  | S754_finite s _ _ => at_least s (-148) (F32.to_number x)
  | _ => F32.to_number x = x
  end.
Proof.
  destruct x as [| | |s m e]; try reflexivity.
  unfold F32.representable, valid_binary, bounded, canonical_mantissa. intros H.
  apply andb_prop in H as [Hc _]. apply Z.eqb_eq in Hc.
  unfold fexp, emin, F32.prec, F32.emax in Hc. cbn [F32.to_number].
  eapply at_least_weaken; [|apply binary_round_at_least].
  - lia.
  - reflexivity.
  - unfold emin, F64.prec, F64.emax. lia.
Qed.

(** The square of an element: [+0] for a zero, otherwise NaN or a positive
    number that double precision cannot lose. *)
Lemma square_of_element x :
  F32.representable x = true ->
  (F64.is_zero x = true
   /\ F64.mul (F32.to_number x) (F32.to_number x) = S754_zero false)
  \/ positive_or_nan (-297) (F64.mul (F32.to_number x) (F32.to_number x)).
Proof.
  intros Hx. pose proof (to_number_representable x Hx) as Hv.
  destruct x as [s|s| |s m e].
  - left. rewrite Hv. by destruct s.
  - right. rewrite Hv. right. by destruct s.
  - right. rewrite Hv. by left.
  - right. right. destruct (F32.to_number (S754_finite s m e)) as [| s'| |s' m' e'];
      try contradiction.
    + cbn. by destruct s'.
    + destruct Hv as [_ Hmag].
      eapply at_least_weaken; [|apply mul_self_at_least].
      * lia.
      * reflexivity.
      * unfold emin, F64.prec, F64.emax. lia.
Qed.

Lemma add_zero_l k y :
  positive_or_nan k y -> F64.add (S754_zero false) y = y.
Proof. intros [->|Hy]; [reflexivity|]. by destruct y. Qed.

Lemma add_zero_r k x :
  positive_or_nan k x -> F64.add x (S754_zero false) = x.
Proof. intros [->|Hx]; [reflexivity|]. by destruct x. Qed.

Lemma add_positive k x y :
  -1074 < k -> positive_or_nan k x -> positive_or_nan k y ->
  positive_or_nan k (F64.add x y).
Proof.
  intros Hk [->|Hx] Hy; [by left|].
  destruct Hy as [->|Hy]; [left; by destruct x|].
  right. destruct x as [| sx| |sx mx ex], y as [| sy| |sy my ey]; try contradiction.
  - cbn in Hx, Hy. subst. reflexivity.
  - cbn in Hx. subst. reflexivity.
  - cbn in Hy. subst. reflexivity.
  - destruct Hx as [-> Hx], Hy as [-> Hy].
    eapply at_least_weaken; [|apply add_at_least].
    + exact Hx.
    + reflexivity.
    + unfold emin, F64.prec, F64.emax. lia.
Qed.

(** The running sum is [+0] as long as only zeros were squared, and stays
    away from zero afterwards. *)
Lemma sum_squares_cases buffer :
  Forall (fun x => F32.representable x = true) buffer ->
  forall sum,
    (sum = S754_zero false ->
     (sum_squares sum buffer = S754_zero false
      /\ Forall (fun x => F64.is_zero x = true) buffer)
     \/ positive_or_nan (-297) (sum_squares sum buffer))
    /\ (positive_or_nan (-297) sum -> positive_or_nan (-297) (sum_squares sum buffer)).
Proof.
  induction 1 as [|x rest Hx _ IH]; intros sum; cbn [sum_squares].
  - split; [intros ->; left; by split | done].
  - destruct (square_of_element x Hx) as [[Hz Hsq]|Hsq].
    + rewrite Hsq. split.
      * intros ->. destruct (IH (S754_zero false)) as [H0 _].
        destruct (H0 eq_refl) as [[Hs Hall]|Hp]; [left | right; exact Hp].
        split; [exact Hs | by constructor].
      * intros Hp. rewrite (add_zero_r _ _ Hp). by apply IH.
    + split.
      * intros ->. rewrite (add_zero_l _ _ Hsq). right. by apply IH.
      * intros Hp. apply IH. apply add_positive; [lia | done | done].
Qed.

Lemma div_by_length sum n :
  positive_or_nan (-297) sum -> 0 < n < 2 ^ 53 ->
  positive_or_nan (-350) (F64.div sum (F64.of_Z n)).
Proof.
  intros Hs Hn.
  destruct (binary_normalize_small F64.prec F64.emax ltac:(reflexivity) n)
    as (mn & en & Hof & Hmag); [by vm_compute | by vm_compute | exact Hn |].
  unfold F64.div, F64.of_Z. rewrite Hof.
  destruct Hs as [->|Hs]; [by left|]. right.
  destruct sum as [| s| |s m e]; try contradiction.
  - cbn in Hs. subst. reflexivity.
  - destruct Hs as [-> Hs].
    eapply at_least_weaken; [|apply (div_at_least F64.prec F64.emax ltac:(reflexivity)
                                       false m e false mn en)].
    + unfold F64.prec in Hmag. lia.
    + unfold emin, F64.prec, F64.emax in *. lia.
Qed.

Lemma sqrt_not_zero x :
  positive_or_nan (-350) x -> F64.is_zero (F64.sqrt x) = false.
Proof.
  intros [->|Hx]; [reflexivity|].
  destruct x as [| s| |s m e]; try contradiction.
  - cbn in Hx. subst. reflexivity.
  - destruct Hx as [-> Hx].
    destruct (sqrt_at_least F64.prec F64.emax ltac:(reflexivity) m e) as [k Hk].
    { unfold emin, F64.prec, F64.emax. lia. }
    unfold F64.sqrt. by destruct (SFsqrt _ _ _).
Qed.

(** The RMS is zero exactly for the buffers that are not empty and hold
    zeros only. *)
Lemma calculateRMS_zero buffer :
  Forall (fun x => F32.representable x = true) buffer ->
  Z.of_nat (length buffer) < 2 ^ 53 ->
  F64.is_zero (calculateRMS buffer) = true ->
  buffer <> [] /\ Forall (fun x => F64.is_zero x = true) buffer.
Proof.
  intros Hrep Hlen Hz. destruct buffer as [|x rest] eqn:Hb; [discriminate Hz|].
  rewrite <- Hb in *. split; [by rewrite Hb|].
  unfold calculateRMS in Hz.
  destruct (sum_squares_cases buffer Hrep (F64.of_Z 0)) as [H0 _].
  destruct (H0 eq_refl) as [[_ Hall]|Hp]; [exact Hall|].
  assert (Hn : 0 < Z.of_nat (length buffer)) by (rewrite Hb; cbn [length]; lia).
  pose proof (sqrt_not_zero _ (div_by_length _ _ Hp (conj Hn Hlen))) as Hnz.
  congruence.
Qed.

Lemma calculateRMS_zeros buffer :
  buffer <> [] -> Z.of_nat (length buffer) < 2 ^ 53 ->
  Forall (fun x => F64.is_zero x = true) buffer ->
  calculateRMS buffer = S754_zero false.
Proof.
  intros Hne Hlen Hall. unfold calculateRMS.
  assert (Hsum : forall l, Forall (fun x => F64.is_zero x = true) l ->
                           sum_squares (S754_zero false) l = S754_zero false).
  { induction 1 as [|x l Hx _ IH]; [reflexivity|]. cbn [sum_squares].
    destruct x as [[]| | |]; try discriminate; exact IH. }
  change (F64.of_Z 0) with (S754_zero false). rewrite (Hsum _ Hall).
  destruct (binary_normalize_small F64.prec F64.emax ltac:(reflexivity)
              (Z.of_nat (length buffer))) as (mn & en & Hof & _);
    [by vm_compute | by vm_compute | |].
  { change (2 ^ F64.prec) with (2 ^ 53). destruct buffer; [done | cbn [length] in *; lia]. }
  unfold F64.of_Z. rewrite Hof. reflexivity.
Qed.

(** Dividing by a zero gives an infinity or NaN, and a zero times either
    is NaN. *)
Lemma gain_by_zero targetRMS rms z :
  F64.is_zero rms = true -> F64.is_zero z = true ->
  F64.is_finite (F64.div targetRMS rms) = false
  /\ F64.mul z (F64.div targetRMS rms) = S754_nan.
Proof.
  destruct rms as [sr| | |]; try discriminate.
  destruct z as [sz| | |]; try discriminate. intros _ _.
  destruct targetRMS as [st|st| |st mt et]; split; reflexivity.
Qed.

(** C9. For a [Float32Array] (of a length JavaScript allows) whose RMS is
    zero, and also for the empty one, whose RMS is NaN, [normalizeAudio]
    divides [targetRMS] by that RMS unguarded: the gain is an infinity or
    NaN, the result has the length of the input and every element of it is
    NaN. The RMS is zero exactly for the non-empty buffers of zeros. *)
Theorem normalizeAudio_zero_rms buffer targetRMS :
  Forall (fun x => F32.representable x = true) buffer ->
  Z.of_nat (length buffer) < 2 ^ 53 ->
  F64.is_zero (calculateRMS buffer) = true \/ buffer = [] ->
  gain buffer targetRMS = F64.div targetRMS (calculateRMS buffer)
  /\ F64.is_finite (gain buffer targetRMS) = false
  /\ length (normalizeAudio buffer targetRMS) = length buffer
  /\ Forall (fun y => y = S754_nan) (normalizeAudio buffer targetRMS)
  /\ (buffer = [] -> calculateRMS buffer = S754_nan)
  /\ (F64.is_zero (calculateRMS buffer) = true
      <-> buffer <> [] /\ Forall (fun x => F64.is_zero x = true) buffer).
Proof.
  intros Hrep Hlen Hz.
  assert (Hiff : F64.is_zero (calculateRMS buffer) = true
                 <-> buffer <> [] /\ Forall (fun x => F64.is_zero x = true) buffer).
  { split; [by apply calculateRMS_zero|].
    intros [Hne Hall]. by rewrite calculateRMS_zeros. }
  split; [reflexivity|].
  rewrite normalizeAudio_map, length_map.
  destruct Hz as [Hz| ->].
  - destruct (proj1 Hiff Hz) as [Hne Hall].
    split; [|split; [reflexivity|split; [|split; [done | exact Hiff]]]].
    + unfold gain.
      by destruct (gain_by_zero targetRMS _ (S754_zero false) Hz eq_refl).
    + apply Forall_map. eapply Forall_impl; [exact Hall|]. cbn beta.
      intros x Hx. unfold gain.
      destruct x as [sx| | |]; try discriminate. cbn [F32.to_number].
      destruct (gain_by_zero targetRMS _ (S754_zero sx) Hz eq_refl) as [_ ->].
      reflexivity.
  - split; [by destruct targetRMS|].
    split; [reflexivity|]. split; [constructor|]. split; [reflexivity | exact Hiff].
Qed.
End AudioFacts.

(** Witness for [normalizeAudio_zero_rms]: the buffer [+0, -0] and the
    default target. *)
Lemma normalizeAudio_zero_rms_witness :
  F64.is_finite
    (AudioUtils.gain [S754_zero false; S754_zero true] AudioUtils.default_targetRMS) = false
  /\ Forall (fun y => y = S754_nan)
       (AudioUtils.normalizeAudio [S754_zero false; S754_zero true]
          AudioUtils.default_targetRMS).
Proof.
  destruct (normalizeAudio_zero_rms [S754_zero false; S754_zero true]
              AudioUtils.default_targetRMS
              ltac:(repeat constructor) ltac:(reflexivity)
              ltac:(left; vm_compute; reflexivity)) as (_ & Hgain & _ & Hnan & _).
  exact (conj Hgain Hnan).
Defined.

(** The two zeros come out as two NaN. *)
Example normalizeAudio_zeros :
  AudioUtils.normalizeAudio [S754_zero false; S754_zero true] AudioUtils.default_targetRMS
  = [S754_nan; S754_nan].
Proof. vm_compute. reflexivity. Qed.

(** Where the RMS is not zero the helper does normalize: [1, -0.5] has RMS
    0.79 and comes out as [0.379, -0.190]. *)
Example normalizeAudio_regular :
  AudioUtils.normalizeAudio
    [S754_finite false 8388608 (-23); S754_finite true 8388608 (-24)]
    AudioUtils.default_targetRMS
  = [S754_finite false 12733012 (-25); S754_finite true 12733012 (-26)].
Proof. vm_compute. reflexivity. Qed.

(** * Further properties of the audio helpers *)

Section AudioMore.
Import AudioUtils.

(** X1. The result of [normalizeAudio] has the length of its input, and its
    element at each index is the input element at that index times the one
    gain, stored in single precision. *)
Theorem normalizeAudio_elementwise buffer targetRMS :
  length (normalizeAudio buffer targetRMS) = length buffer
  /\ (forall i x, buffer !! i = Some x ->
        normalizeAudio buffer targetRMS !! i
        = Some (F32.fround (F64.mul (F32.to_number x) (gain buffer targetRMS)))).
Proof.
  rewrite normalizeAudio_map. split; [apply length_map|].
  intros i x Hx. by rewrite list_lookup_fmap, Hx.
Qed.

(** X2. The RMS of a [Float32Array] is never negative: it is NaN, [+0], a
    positive number or [+Infinity]. *)
Theorem calculateRMS_not_negative buffer :
  Forall (fun x => F32.representable x = true) buffer ->
  Z.of_nat (length buffer) < 2 ^ 53 ->
  calculateRMS buffer = S754_nan
  \/ calculateRMS buffer = S754_zero false
  \/ exists k, at_least false k (calculateRMS buffer).
Proof.
  intros Hrep Hlen.
  destruct (sum_squares_cases buffer Hrep (F64.of_Z 0)) as [H0 _].
  destruct (H0 eq_refl) as [[Hsum Hall]|Hp].
  - destruct buffer as [|x rest] eqn:Hb; [by left|].
    right. left. rewrite <- Hb in *. apply calculateRMS_zeros; [by rewrite Hb | done | done].
  - assert (Hn : 0 < Z.of_nat (length buffer)).
    { destruct buffer; [|cbn [length]; lia]. by destruct Hp. }
    pose proof (div_by_length _ _ Hp (conj Hn Hlen)) as Hd.
    unfold calculateRMS.
    destruct Hd as [->|Hd]; [by left|].
    destruct (F64.div _ _) as [| s| |s m e]; try contradiction.
    + cbn in Hd. subst. right. right. by exists 0.
    + destruct Hd as [-> Hd]. right. right.
      apply (sqrt_at_least F64.prec F64.emax ltac:(reflexivity) m e).
      unfold emin, F64.prec, F64.emax. lia.
Qed.

Lemma sum_squares_nan buffer : sum_squares S754_nan buffer = S754_nan.
Proof. induction buffer as [|x rest IH]; [reflexivity | exact IH]. Qed.

Lemma add_nan_r x : F64.add x S754_nan = S754_nan.
Proof. by destruct x. Qed.

Lemma mul_nan_r x : F64.mul x S754_nan = S754_nan.
Proof. by destruct x. Qed.

(** X3. One NaN sample spoils everything: the RMS is NaN and so is every
    element of the normalized buffer, whatever the other samples and the
    target are. *)
Theorem nan_sample_spoils_all buffer targetRMS :
  In S754_nan buffer ->
  calculateRMS buffer = S754_nan
  /\ Forall (fun y => y = S754_nan) (normalizeAudio buffer targetRMS).
Proof.
  intros Hin.
  assert (Hsum : forall sum, sum_squares sum buffer = S754_nan).
  { induction buffer as [|x rest IH]; [destruct Hin|]. intros sum. cbn [sum_squares].
    destruct Hin as [->|Hin]; [|by apply IH].
    cbn [F32.to_number]. rewrite add_nan_r. apply sum_squares_nan. }
  assert (Hrms : calculateRMS buffer = S754_nan).
  { unfold calculateRMS. by rewrite Hsum. }
  split; [exact Hrms|].
  rewrite normalizeAudio_map. apply Forall_map, Forall_forall. intros x _. cbn beta.
  unfold gain. rewrite Hrms.
  replace (F64.div targetRMS S754_nan) with S754_nan by (by destruct targetRMS).
  by rewrite mul_nan_r.
Qed.

(** Rounding treats a number and its opposite alike. *)
Lemma binary_round_aux_opp prec emax s m e l :
  binary_round_aux prec emax (negb s) m e l = SFopp (binary_round_aux prec emax s m e l).
Proof.
  unfold binary_round_aux.
  destruct (shr_fexp prec emax m e l) as [mrs1 e1].
  destruct (shr_fexp prec emax _ e1 loc_Exact) as [mrs2 e2].
  destruct (shr_m mrs2); [reflexivity | | reflexivity].
  by destruct (e2 <=? emax - prec).
Qed.

Lemma binary_round_opp prec emax s m e :
  binary_round prec emax (negb s) m e = SFopp (binary_round prec emax s m e).
Proof.
  unfold binary_round. destruct (shl_align m e _) as [mz ez].
  apply binary_round_aux_opp.
Qed.

Lemma to_number_opp x : F32.to_number (SFopp x) = SFopp (F32.to_number x).
Proof. destruct x; try reflexivity. apply binary_round_opp. Qed.

Lemma fround_opp x : F32.fround (SFopp x) = SFopp (F32.fround x).
Proof. destruct x; try reflexivity. apply binary_round_opp. Qed.

Lemma mul_opp_l x y : F64.mul (SFopp x) y = SFopp (F64.mul x y).
Proof.
  destruct x as [sx|sx| |sx mx ex], y as [sy|sy| |sy my ey]; cbn [SFopp F64.mul SFmul];
    try reflexivity; try (by destruct sx, sy).
  rewrite <- binary_round_aux_opp. f_equal. by destruct sx, sy.
Qed.

Lemma mul_opp_opp x : F64.mul (SFopp x) (SFopp x) = F64.mul x x.
Proof.
  destruct x as [s|s| |s m e]; cbn [SFopp F64.mul SFmul]; try reflexivity;
    by destruct s.
Qed.

Lemma sum_squares_opp buffer : forall sum,
  sum_squares sum (map SFopp buffer) = sum_squares sum buffer.
Proof.
  induction buffer as [|x rest IH]; intros sum; [reflexivity|].
  cbn [map sum_squares]. by rewrite to_number_opp, mul_opp_opp, IH.
Qed.

(** X4. Inverting the polarity of a signal leaves its RMS unchanged, bit for
    bit, and normalizing the inverted signal gives the inverted normalized
    signal. *)
Theorem polarity_inversion buffer targetRMS :
  calculateRMS (map SFopp buffer) = calculateRMS buffer
  /\ normalizeAudio (map SFopp buffer) targetRMS
     = map SFopp (normalizeAudio buffer targetRMS).
Proof.
  assert (Hrms : calculateRMS (map SFopp buffer) = calculateRMS buffer).
  { unfold calculateRMS. by rewrite sum_squares_opp, length_map. }
  split; [exact Hrms|].
  rewrite !normalizeAudio_map. unfold gain. rewrite Hrms, <- !list_fmap_compose.
  apply list_fmap_ext. intros i x _. cbn.
  by rewrite to_number_opp, mul_opp_l, fround_opp.
Qed.
End AudioMore.

(** Witness for [calculateRMS_not_negative]: the RMS of [1, -0.5]. *)
Lemma calculateRMS_not_negative_witness :
  AudioUtils.calculateRMS [AudioUtils.one32; S754_finite true 8388608 (-24)] = S754_nan
  \/ AudioUtils.calculateRMS [AudioUtils.one32; S754_finite true 8388608 (-24)]
     = S754_zero false
  \/ exists k,
       at_least false k
         (AudioUtils.calculateRMS [AudioUtils.one32; S754_finite true 8388608 (-24)]).
Proof.
  apply (calculateRMS_not_negative [AudioUtils.one32; S754_finite true 8388608 (-24)]);
    [repeat constructor | reflexivity].
Defined.

(** Witness for [nan_sample_spoils_all]: a NaN between two good samples. *)
Lemma nan_sample_witness :
  AudioUtils.calculateRMS [AudioUtils.one32; S754_nan; AudioUtils.minus_one32] = S754_nan
  /\ Forall (fun y => y = S754_nan)
       (AudioUtils.normalizeAudio [AudioUtils.one32; S754_nan; AudioUtils.minus_one32]
          AudioUtils.default_targetRMS).
Proof.
  apply (nan_sample_spoils_all [AudioUtils.one32; S754_nan; AudioUtils.minus_one32]).
  right. left. reflexivity.
Defined.

(** * Properties of the waveform drawing *)

Section WaveformFacts.
Import AudioUtils.

(** An integer below [2 ^ 53] is a number in canonical form. *)
Lemma of_Z_bounded n :
  0 < n < 2 ^ 53 ->
  exists m e, F64.of_Z n = S754_finite false m e
              /\ bounded F64.prec F64.emax m e = true.
Proof.
  intros Hn. destruct n as [|p|p]; try lia. unfold F64.of_Z. cbn [binary_normalize].
  unfold binary_round.
  pose proof (digits2_pos_le p 53 ltac:(lia) ltac:(lia)) as Hd.
  set (d := Zpos (digits2_pos p)) in *.
  assert (Hf : fexp F64.prec F64.emax (d + 0) <= 0)
    by (unfold fexp, emin, F64.prec, F64.emax; lia).
  pose proof (shl_align_magnitude p 0 (fexp F64.prec F64.emax (d + 0))) as Hmag.
  destruct (shl_align_le p 0 (fexp F64.prec F64.emax (d + 0)) Hf) as [He _].
  destruct (shl_align p 0 _) as [mz ez]. cbn [fst snd] in *. fold d in Hmag.
  rewrite binary_round_aux_canonical by (rewrite Hmag; exact (eq_sym He)).
  assert (Hez : ez <= F64.emax - F64.prec)
    by (unfold fexp, emin, F64.prec, F64.emax in *; lia).
  pose proof Hez as Hez'. apply Z.leb_le in Hez'. rewrite Hez'.
  exists mz, ez. split; [reflexivity|].
  unfold bounded, canonical_mantissa. rewrite Hmag, <- He, Z.eqb_refl. exact Hez'.
Qed.

(** One times a number is that number, exactly. *)
Lemma mul_one_l s m e :
  bounded F64.prec F64.emax m e = true ->
  F64.mul (S754_finite false 4503599627370496 (-52)) (S754_finite s m e)
  = S754_finite s m e.
Proof.
  unfold bounded, canonical_mantissa. intros H.
  apply andb_prop in H as [Hc Hb]. apply Z.eqb_eq in Hc.
  unfold F64.mul. cbn [SFmul xorb].
  change (4503599627370496 * m)%positive with (Pos.iter xO m 52).
  unfold binary_round_aux, shr_fexp. cbn [Zdigits2].
  rewrite (digits2_pos_shift m (Pos.iter xO m 52) 52 ltac:(lia) (iter_xO_pow m 52)).
  replace (Zpos (digits2_pos m) + 52 + (-52 + e)) with (Zpos (digits2_pos m) + e) by lia.
  rewrite Hc. replace (e - (-52 + e)) with 52 by lia.
  cbn [shr shr_record_of_loc fst snd]. 
  change (SpecFloat.iter_pos shr_1 52
            {| shr_m := Zpos (Pos.iter xO m 52); shr_r := false; shr_s := false |})
    with {| shr_m := Zpos m; shr_r := false; shr_s := false |}.
  cbn [shr_m loc_of_shr_record round_nearest_even Zdigits2].
  replace (-52 + e + 52) with e by lia.
  rewrite Hc, Z.sub_diag. cbn [shr shr_m]. by rewrite Hb.
Qed.

Lemma waveform_loop_length n : forall i x audioData sliceWidth height,
  length (waveform_loop n i x audioData sliceWidth height) = n.
Proof. induction n as [|n IH]; intros; cbn [waveform_loop length]; [done | by rewrite IH]. Qed.

(** The point drawn for the sample at index [i + k]. *)
Lemma waveform_loop_point sliceWidth height audioData n : forall i x k s,
  (k < n)%nat -> audioData !! (i + k)%nat = Some s ->
  exists x',
    waveform_loop n i x audioData sliceWidth height !! k
    = Some ((if Nat.eqb (i + k) 0 then moveTo else lineTo) x' (waveform_y height s))
    /\ (k = 0%nat -> x' = x).
Proof.
  induction n as [|n IH]; intros i x k s Hk Hs; [lia|].
  cbn [waveform_loop]. destruct k as [|k].
  - rewrite Nat.add_0_r in *. rewrite (list_lookup_total_correct _ _ _ Hs).
    exists x. split; [by destruct (Nat.eqb i 0) | done].
  - replace (i + S k)%nat with (S i + k)%nat in * by lia.
    destruct (IH (S i) (F64.add x sliceWidth) k s ltac:(lia) Hs) as (x' & Hx' & _).
    exists x'. split; [exact Hx' | lia].
Qed.

(** The samples 1 and -1 land on the upper and the lower edge. *)
Lemma waveform_y_extremes height :
  0 <= height < 2 ^ 53 ->
  waveform_y (F64.of_Z height) one32 = S754_zero false
  /\ waveform_y (F64.of_Z height) minus_one32 = F64.of_Z height.
Proof.
  intros Hh. unfold waveform_y.
  change (F64.add (F64.div (F32.to_number one32) (F64.of_Z 2)) (F64.of_ratio 5 10))
    with (S754_finite false 4503599627370496 (-52)).
  change (F64.add (F64.div (F32.to_number minus_one32) (F64.of_Z 2)) (F64.of_ratio 5 10))
    with (S754_zero false).
  destruct (Z.eq_dec height 0) as [->|Hnz]; [by split|].
  destruct (of_Z_bounded height ltac:(lia)) as (m & e & -> & Hb).
  rewrite (mul_one_l _ _ _ Hb). split; [|reflexivity].
  unfold F64.sub. cbn [SFsub cond_Zopp]. by rewrite Z.sub_diag.
Qed.

(** X5. The drawing clears the canvas, sets the style, and traces one path with
    exactly one point per sample: [moveTo] for the first sample, at abscissa
    0, and [lineTo] for each later one, at the ordinate computed from that
    sample alone; then it strokes the path. For an empty buffer the path has
    no point. *)
Theorem waveform_one_point_per_sample width height audioData color :
  exists points,
    visualizeAudioWaveform width height audioData color
    = [clearRect (F64.of_Z 0) (F64.of_Z 0) (F64.of_Z width) (F64.of_Z height);
       set_strokeStyle color; set_lineWidth (F64.of_Z 2); beginPath]
      ++ points ++ [stroke]
    /\ length points = length audioData
    /\ (forall i s, audioData !! i = Some s ->
          exists x,
            points !! i
            = Some ((if Nat.eqb i 0 then moveTo else lineTo) x
                      (waveform_y (F64.of_Z height) s))
            /\ (i = 0%nat -> x = F64.of_Z 0)).
Proof.
  eexists. split; [reflexivity|]. split; [apply waveform_loop_length|].
  intros i s Hs.
  apply (waveform_loop_point _ _ audioData (length audioData) 0 _ i s);
    [by eapply lookup_lt_Some | exact Hs].
Qed.

(** X6. On a canvas of any height below 2^53 a sample of 1 is drawn on the
    upper edge (ordinate 0) and a sample of -1 on the lower edge (ordinate
    [height]), exactly: the full scale of the signal spans the full height. *)
Theorem waveform_full_scale width height audioData color i :
  0 <= height < 2 ^ 53 ->
  (audioData !! i = Some one32 ->
   (visualizeAudioWaveform width height audioData color !! (4 + i)%nat) ≫= ordinate
   = Some (S754_zero false))
  /\ (audioData !! i = Some minus_one32 ->
      (visualizeAudioWaveform width height audioData color !! (4 + i)%nat) ≫= ordinate
      = Some (F64.of_Z height)).
Proof.
  intros Hh. destruct (waveform_y_extremes height Hh) as [Hone Hminus].
  assert (Hpt : forall s, audioData !! i = Some s ->
            (visualizeAudioWaveform width height audioData color !! (4 + i)%nat)
              ≫= ordinate
            = Some (waveform_y (F64.of_Z height) s)).
  { intros s Hs. unfold visualizeAudioWaveform.
    rewrite lookup_app_r by (cbn [length]; lia).
    replace (4 + i - _)%nat with i by (cbn [length]; lia).
    rewrite lookup_app_l by (rewrite waveform_loop_length; by eapply lookup_lt_Some).
    destruct (waveform_loop_point
                (F64.div (F64.of_Z width) (F64.of_Z (Z.of_nat (length audioData))))
                (F64.of_Z height) audioData (length audioData) 0 (F64.of_Z 0) i s)
      as (x & -> & _); [by eapply lookup_lt_Some | exact Hs |].
    cbn. by destruct (Nat.eqb i 0). }
  split; intros Hs; rewrite (Hpt _ Hs); by f_equal.
Qed.
End WaveformFacts.

(** Witness for [waveform_full_scale]: three samples on a canvas 800 wide
    and 200 high. *)
Lemma waveform_full_scale_witness :
  (AudioUtils.visualizeAudioWaveform 800 200
     [AudioUtils.one32; S754_zero false; AudioUtils.minus_one32]
     AudioUtils.default_color !! 4%nat) ≫= AudioUtils.ordinate
  = Some (S754_zero false).
Proof.
  exact (proj1 (waveform_full_scale 800 200
                  [AudioUtils.one32; S754_zero false; AudioUtils.minus_one32]
                  AudioUtils.default_color 0 ltac:(lia)) eq_refl).
Defined.

(** The three points of that drawing: abscissas 0, 266.67 and 533.33,
    ordinates 0, 100 and 200. *)
Example waveform_three_samples :
  AudioUtils.visualizeAudioWaveform 800 200
    [AudioUtils.one32; S754_zero false; AudioUtils.minus_one32] AudioUtils.default_color
  = [AudioUtils.clearRect (F64.of_Z 0) (F64.of_Z 0) (F64.of_Z 800) (F64.of_Z 200);
     AudioUtils.set_strokeStyle "#4f46e5"; AudioUtils.set_lineWidth (F64.of_Z 2);
     AudioUtils.beginPath;
     AudioUtils.moveTo (F64.of_Z 0) (F64.of_Z 0);
     AudioUtils.lineTo (F64.of_ratio 800 3) (F64.of_Z 100);
     AudioUtils.lineTo (F64.add (F64.of_ratio 800 3) (F64.of_ratio 800 3)) (F64.of_Z 200);
     AudioUtils.stroke].
Proof. vm_compute. reflexivity. Qed.

(** * More on the worker: the event loop under any interleaving *)

Section WorkerLoop.
Import Worker.
Variable env : Env.

Lemma run_cons st ev evs :
  run env st (ev :: evs)
  = ((run env (step env st ev).1 evs).1,
     (step env st ev).2 :: (run env (step env st ev).1 evs).2).
Proof.
  cbn [run]. destruct (step env st ev) as [st' out]. cbn [fst snd].
  destruct (run env st' evs) as [st'' outs]. reflexivity.
Qed.

Lemma onmessage_init st o :
  prop o "type" = JStr "init" ->
  onmessage env st (JObj o) = delivered (initWasmModule_begin env st).
Proof. intros Ht. unfold onmessage. cbn [destructure]. by rewrite Ht. Qed.

(** Whether a delivery throws depends on the message alone. *)
Lemma threw_any_state st st' event_data :
  threw (onmessage env st event_data) = threw (onmessage env st' event_data).
Proof.
  unfold onmessage. destruct (destructure event_data) as [[[type data] settings]|];
    [|reflexivity].
  destruct (is_string type "init"); [reflexivity|].
  destruct (is_string type "process"); [reflexivity|].
  by destruct (ToString env type).
Qed.

(** One event: what is posted and what is left pending. *)
Lemma step_accounting st ev :
  (length (step env st ev).2 + length (tasks (step env st ev).1)
   = length (tasks st) + (if answerable env ev then 1 else 0))%nat.
Proof.
  destruct ev as [event_data|i]; cbn [step answerable].
  - rewrite (threw_any_state start.1 st). unfold onmessage.
    destruct (destructure event_data) as [[[type data] settings]|]; [|cbn; lia].
    destruct (is_string type "init").
    { cbn. rewrite length_app. cbn. lia. }
    destruct (is_string type "process").
    { unfold processAudio_begin. destruct (wasmModule st); [|cbn; lia].
      destruct (prepareAudioForProcessing env data); cbn; [lia|].
      rewrite length_app. cbn. lia. }
    destruct (ToString env type); cbn; lia.
  - unfold settle. destruct (tasks st !! i) as [task|] eqn:Hi; [|cbn; lia].
    pose proof (lookup_lt_Some _ _ _ Hi) as Hlt.
    pose proof (length_delete (tasks st) i ltac:(by eexists)) as Hdel.
    destruct task as [[error|module]|outcome]; cbn [initWasmModule_resume fst snd tasks length].
    1,2: lia.
    unfold processAudio_resume. destruct outcome as [error|processed]; cbn [length]; [lia|].
    destruct (prepareAudioForPlayback env processed); cbn [length]; lia.
Qed.

(** One event never unloads the engine. *)
Lemma step_keeps_module st ev :
  is_Some (wasmModule st) -> is_Some (wasmModule (step env st ev).1).
Proof.
  intros Hm. destruct ev as [event_data|i]; cbn [step].
  - unfold onmessage. destruct (destructure event_data) as [[[type data] settings]|];
      [|exact Hm].
    destruct (is_string type "init"); [exact Hm|].
    destruct (is_string type "process").
    { unfold processAudio_begin. destruct (wasmModule st) eqn:Hw;
        [|by destruct Hm].
      destruct (prepareAudioForProcessing env data); cbn; by rewrite ?Hw. }
    destruct (ToString env type); exact Hm.
  - unfold settle. destruct (tasks st !! i) as [[[error|module]|outcome]|]; cbn; eauto.
Qed.

(** The engine held by the worker and the promises of the suspended
    [initWasmModule] calls all come from [loadWasmModule]. *)
Lemma step_from_loader st ev :
  (forall module, wasmModule st = Some module -> loadWasmModule env = inr module) ->
  Forall (fun task => forall outcome,
            task = await_loadWasmModule outcome -> outcome = loadWasmModule env)
    (tasks st) ->
  (forall module, wasmModule (step env st ev).1 = Some module ->
     loadWasmModule env = inr module)
  /\ Forall (fun task => forall outcome,
               task = await_loadWasmModule outcome -> outcome = loadWasmModule env)
       (tasks (step env st ev).1).
Proof.
  intros Hm Ht. destruct ev as [event_data|i]; cbn [step].
  - unfold onmessage. destruct (destructure event_data) as [[[type data] settings]|];
      [|by split].
    destruct (is_string type "init").
    { cbn. split; [exact Hm|]. apply Forall_app. split; [exact Ht|].
      constructor; [|constructor]. intros outcome Heq. congruence. }
    destruct (is_string type "process").
    { unfold processAudio_begin. destruct (wasmModule st) eqn:Hw;
        [|cbn [delivered state posted fst snd]; rewrite Hw; by split].
      destruct (prepareAudioForProcessing env data);
        cbn [delivered state posted fst snd wasmModule tasks];
        [rewrite Hw; by split|].
      split; [exact Hm|]. apply Forall_app. split; [exact Ht|].
      constructor; [|constructor]. intros outcome Heq. discriminate Heq. }
    destruct (ToString env type); by split.
  - unfold settle. destruct (tasks st !! i) as [task|] eqn:Hi; [|by split].
    assert (Hd : Forall (fun task => forall outcome,
                   task = await_loadWasmModule outcome -> outcome = loadWasmModule env)
                   (delete i (tasks st))).
    { apply Forall_forall. intros t Hin.
      apply (proj1 (Forall_forall _ _) Ht). by apply (list_subseteq_delete i). }
    pose proof (proj1 (Forall_lookup _ _) Ht i task Hi) as Htask.
    destruct task as [[error|module]|outcome]; cbn; split; try done.
    intros module' Heq. rewrite <- (Htask _ eq_refl). congruence.
Qed.

Lemma run_from_loader evs : forall st,
  (forall module, wasmModule st = Some module -> loadWasmModule env = inr module) ->
  Forall (fun task => forall outcome,
            task = await_loadWasmModule outcome -> outcome = loadWasmModule env)
    (tasks st) ->
  forall module, wasmModule (run env st evs).1 = Some module ->
    loadWasmModule env = inr module.
Proof.
  induction evs as [|ev evs IH]; intros st Hm Ht; [exact Hm|].
  rewrite run_cons. cbn [fst].
  destruct (step_from_loader st ev Hm Ht) as [Hm' Ht']. by apply IH.
Qed.

(** X7. Init, run to completion. An ['init'] request is answered by
    exactly one ['init'] message. When the engine loads, it replaces the one the
    worker holds; when loading fails, the reply carries the error and the
    worker is left as it was, an engine loaded earlier included. *)
Theorem init_replies_once st o :
  prop o "type" = JStr "init" ->
  handle env st (JObj o)
  = match loadWasmModule env with
    | inr module => ({| wasmModule := Some module; tasks := tasks st |}, [msg_init_ok])
    | inl error => (st, [msg_init_failed error])
    end.
Proof.
  intros Ht. unfold handle. rewrite (onmessage_init _ _ Ht).
  unfold initWasmModule_begin. cbn [delivered state posted fst snd].
  rewrite settle_new_task. by destruct (loadWasmModule env).
Qed.

(** X8. Once an engine is loaded the worker never goes back to the
    uninitialized state, whatever messages arrive and in whatever order the
    pending promises settle, failed reloads included. *)
Theorem module_never_unloaded evs : forall st,
  is_Some (wasmModule st) -> is_Some (wasmModule (run env st evs).1).
Proof.
  induction evs as [|ev evs IH]; intros st Hm; [exact Hm|].
  rewrite run_cons. cbn [fst]. apply IH. by apply step_keeps_module.
Qed.

(** X9. From the start of the worker on, an engine it holds is the one
    [loadWasmModule] resolved to: no message can install anything else. *)
Theorem module_comes_from_loader evs module :
  wasmModule (run env start.1 evs).1 = Some module ->
  loadWasmModule env = inr module.
Proof.
  apply run_from_loader; [discriminate | constructor].
Qed.

(** X10. When the engine cannot be loaded, the worker stays uninitialized
    for good: after any history, a ['process'] request is answered with the
    failure [WASM module not initialized] and changes nothing. *)
Theorem failed_load_rejects_every_request evs error o :
  loadWasmModule env = inl error ->
  prop o "type" = JStr "process" ->
  wasmModule (run env start.1 evs).1 = None
  /\ handle env (run env start.1 evs).1 (JObj o)
     = ((run env start.1 evs).1, [msg_process_failed "WASM module not initialized"]).
Proof.
  intros Hl Ht.
  assert (Hnone : wasmModule (run env start.1 evs).1 = None).
  { destruct (wasmModule (run env start.1 evs).1) as [module|] eqn:Hw; [|reflexivity].
    pose proof (run_from_loader evs start.1 ltac:(discriminate) ltac:(constructor)
                  module Hw) as Hload.
    congruence. }
  split; [exact Hnone|].
  rewrite (handle_process env _ _ Ht), Hnone. reflexivity.
Qed.

(** X11. Requests are not queued behind a pending ['init']. A ['process']
    request delivered while the engine is still loading is rejected at once,
    and its rejection is posted before the acknowledgement of the ['init']
    that was sent first. *)
Theorem request_during_loading_rejected st o o' module :
  wasmModule st = None ->
  loadWasmModule env = inr module ->
  prop o "type" = JStr "init" ->
  prop o' "type" = JStr "process" ->
  run env st [Deliver (JObj o); Deliver (JObj o'); Settle (length (tasks st))]
  = ({| wasmModule := Some module; tasks := tasks st |},
     [[]; [msg_process_failed "WASM module not initialized"]; [msg_init_ok]]).
Proof.
  intros Hw Hl Hi Hp.
  rewrite run_cons. cbn [step]. rewrite (onmessage_init _ _ Hi).
  unfold initWasmModule_begin. cbn [delivered state posted fst snd].
  rewrite run_cons. cbn [step]. rewrite (onmessage_process env _ _ Hp).
  unfold processAudio_begin. cbn [wasmModule]. rewrite Hw.
  cbn [delivered state posted fst snd].
  pose proof (settle_new_task env st (await_loadWasmModule (inr module))) as Hs.
  rewrite Hw in Hs.
  rewrite run_cons. cbn [step]. rewrite Hl, !Hs. reflexivity.
Qed.

(** X12. No reply is lost and none is sent twice. After
    any sequence of deliveries and settlements, the number of messages posted
    plus the number of handlers still suspended equals the number of handlers
    suspended at the beginning plus the number of messages delivered whose
    handler did not throw. Once nothing is pending, every such message has
    been answered by exactly one message. *)
Theorem reply_accounting evs : forall st,
  (length (concat (run env st evs).2) + length (tasks (run env st evs).1)
   = length (tasks st) + length (List.filter (answerable env) evs))%nat.
Proof.
  induction evs as [|ev evs IH]; intros st; [cbn; lia|].
  rewrite run_cons. cbn [fst snd concat List.filter]. rewrite length_app.
  pose proof (step_accounting st ev) as Hs. specialize (IH (step env st ev).1).
  destruct (answerable env ev); cbn [length]; lia.
Qed.

Lemma step_reply_shape st ev : forallb reply_shape (step env st ev).2 = true.
Proof.
  destruct ev as [event_data|i]; cbn [step snd].
  - unfold onmessage. destruct (destructure event_data) as [[[type data] settings]|];
      [|reflexivity].
    destruct (is_string type "init"); [reflexivity|].
    destruct (is_string type "process").
    + cbn [delivered posted snd]. unfold processAudio_begin.
      destruct (wasmModule st); [|reflexivity].
      destruct (prepareAudioForProcessing env data); reflexivity.
    + destruct (ToString env type); reflexivity.
  - unfold settle. destruct (tasks st !! i) as [[[error|module]|[error|processed]]|];
      try reflexivity.
    cbn [snd processAudio_resume].
    destruct (prepareAudioForPlayback env processed); reflexivity.
Qed.

(** X13. The wire format. Every message the worker posts in answer to an
    event is of one of five shapes: [{type: 'init', success: true}],
    [{type: 'init', success: false, error}], [{type: 'processed', success:
    true, data}] with a buffer, [{type: 'processed', success: false, error}]
    or [{type: 'error', message}], with strings for [error] and [message]
    and none of the fields [success], [data], [error] and [message] besides
    those listed. *)
Theorem replies_have_five_shapes evs : forall st,
  forallb (forallb reply_shape) (run env st evs).2 = true.
Proof.
  induction evs as [|ev evs IH]; intros st; [reflexivity|].
  rewrite run_cons. cbn [snd forallb]. by rewrite step_reply_shape, IH.
Qed.

(** X14. A ['processed'] reply reports success exactly when all three
    stages succeed: preparing the input, the engine and preparing the output;
    the data it carries is the output of the last stage. *)
Theorem processed_iff_all_stages w audioData settings playbackAudio :
  processAudio env w audioData settings = [msg_processed playbackAudio]
  <-> exists module preparedAudio processedAudio,
        w = Some module
        /\ prepareAudioForProcessing env audioData = inr preparedAudio
        /\ wasm_processAudio module preparedAudio settings = inr processedAudio
        /\ prepareAudioForPlayback env processedAudio = inr playbackAudio.
Proof.
  assert (Hne : forall error, [msg_process_failed error] <> [msg_processed playbackAudio]).
  { intros error Heq. apply (inj (fun m => [m])) in Heq.
    apply (f_equal (fun m : Message => m !! "success")) in Heq.
    vm_compute in Heq. discriminate Heq. }
  unfold processAudio, Trace.try_catch, Trace.bind, Trace.await, Trace.ret,
    Trace.emit, Trace.raise.
  split.
  - destruct w as [module|]; [|intros H; by destruct (Hne _ H)].
    destruct (prepareAudioForProcessing env audioData) as [error|prepared];
      [intros H; by destruct (Hne _ H)|].
    destruct (wasm_processAudio module prepared settings) as [error|processed] eqn:He;
      [intros H; by destruct (Hne _ H)|].
    destruct (prepareAudioForPlayback env processed) as [error|playback] eqn:Hp;
      [intros H; by destruct (Hne _ H)|].
    cbn [fst snd app]. intros H.
    assert (playback = playbackAudio) as ->.
    { apply (inj (fun m => [m])) in H.
      apply (f_equal (fun m : Message => m !! "data")) in H. vm_compute in H.
      congruence. }
    by exists module, prepared, processed.
  - intros (module & prepared & processed & -> & -> & Hw & Hp).
    rewrite Hw, Hp. reflexivity.
Qed.
End WorkerLoop.

(** Witness for [init_replies_once]: the first ['init'] of a fresh worker. *)
Lemma init_replies_once_witness :
  Worker.handle Examples.env Worker.start.1 (Examples.request "init" 0)
  = ({| Worker.wasmModule := Some Examples.echo_module; Worker.tasks := [] |},
     [Worker.msg_init_ok]).
Proof.
  unfold Examples.request.
  apply (init_replies_once Examples.env Worker.start.1). reflexivity.
Defined.

(** With a loader that fails, a later ['init'] leaves a loaded engine in
    place. *)
Example failed_reload_keeps_module :
  Worker.handle Examples.failing_env
    {| Worker.wasmModule := Some Examples.echo_module; Worker.tasks := [] |}
    (Examples.request "init" 1)
  = ({| Worker.wasmModule := Some Examples.echo_module; Worker.tasks := [] |},
     [Worker.msg_init_failed "Failed to fetch"]).
Proof. reflexivity. Qed.

(** Witness for [module_never_unloaded]: a failed reload and an unknown
    message after a successful load. *)
Lemma module_never_unloaded_witness :
  is_Some
    (Worker.wasmModule
       (Worker.run Examples.failing_env
          {| Worker.wasmModule := Some Examples.echo_module; Worker.tasks := [] |}
          [Worker.Deliver (Examples.request "init" 1); Worker.Settle 0;
           Worker.Deliver (Examples.request "cancel" 1)]).1).
Proof.
  apply (module_never_unloaded Examples.failing_env). by eexists.
Defined.

(** Witness for [module_comes_from_loader]. *)
Lemma module_comes_from_loader_witness :
  Worker.loadWasmModule Examples.env = inr Examples.echo_module.
Proof.
  exact (module_comes_from_loader Examples.env
           [Worker.Deliver (Examples.request "init" 0); Worker.Settle 0]
           Examples.echo_module eq_refl).
Defined.

(** Witness for [failed_load_rejects_every_request]: two attempts to load
    the engine, then a request. *)
Lemma failed_load_witness :
  (Worker.handle Examples.failing_env
     (Worker.run Examples.failing_env Worker.start.1
        [Worker.Deliver (Examples.request "init" 0); Worker.Settle 0;
         Worker.Deliver (Examples.request "init" 1); Worker.Settle 0]).1
     (Examples.request "process" 2)).2
  = [Worker.msg_process_failed "WASM module not initialized"].
Proof.
  unfold Examples.request at 3.
  match goal with
  | |- (Worker.handle _ (Worker.run _ _ ?evs).1 (JObj ?o)).2 = _ =>
      exact (f_equal snd
               (proj2 (failed_load_rejects_every_request Examples.failing_env evs
                         "Failed to fetch" o eq_refl eq_refl)))
  end.
Defined.

(** Witness for [request_during_loading_rejected]. *)
Lemma request_during_loading_witness :
  Worker.run Examples.env Worker.start.1
    [Worker.Deliver (Examples.request "init" 0);
     Worker.Deliver (Examples.request "process" 1); Worker.Settle 0]
  = ({| Worker.wasmModule := Some Examples.echo_module; Worker.tasks := [] |},
     [[]; [Worker.msg_process_failed "WASM module not initialized"];
      [Worker.msg_init_ok]]).
Proof.
  unfold Examples.request.
  apply (request_during_loading_rejected Examples.env Worker.start.1);
    reflexivity.
Defined.

(** Two requests and a malformed message against a loaded engine: two
    replies, nothing pending. *)
Example three_deliveries_two_replies :
  let r := Worker.run Examples.env
             {| Worker.wasmModule := Some Examples.echo_module; Worker.tasks := [] |}
             [Worker.Deliver (Examples.request "process" 1); Worker.Deliver JNull;
              Worker.Deliver (Examples.request "process" 2);
              Worker.Settle 1; Worker.Settle 0] in
  r.2 = [[]; []; []; [Worker.msg_processed Examples.four_bytes];
         [Worker.msg_processed Examples.four_bytes]]
  /\ Worker.tasks r.1 = [].
Proof. split; reflexivity. Qed.

(** * More on the page: what a run leaves behind *)

Section AppRuns.
Import App.
Variable createObjectURL : JsVal -> string.

Ltac by_outcome st H :=
  pose proof (processAudio_cases createObjectURL st) as H; cbv zeta in H;
  destruct (audioFile st) as [file|]; [|rewrite H];
  [destruct (wasmModule st) as [module|]; [|rewrite H];
   [destruct (arrayBuffer file) as [error|buf]; [rewrite H|];
    [|destruct (wasm_processAudio module buf _) as [error|out]; rewrite H]|]|].

(** A run reads the settings through [filterLength] and [stepSize]. *)
Lemma processAudio_settings st s :
  prop s "filterLength" = prop (settings st) "filterLength" ->
  prop s "stepSize" = prop (settings st) "stepSize" ->
  processAudio createObjectURL (with_settings st s) = processAudio createObjectURL st.
Proof.
  intros Hf Hs. unfold processAudio, processAudio_try, with_settings.
  cbn [audioFile wasmModule settings audioOutputRef]. by rewrite Hf, Hs.
Qed.

(** X15. The busy flag is always reset. A run that starts sets
    [isProcessing] once to true, as its first effect, and once to false, as
    its last effect, whether it succeeds, the file cannot be read or the
    engine fails; without a file or an engine nothing happens at all. *)
Theorem processing_flag_always_reset st :
  let t := processAudio createObjectURL st in
  processing_flags t
  = match audioFile st, wasmModule st with
    | Some _, Some _ => [true; false]
    | _, _ => []
    end
  /\ (t <> [] ->
      head t = Some (setIsProcessing true) /\ last t = Some (setIsProcessing false)).
Proof.
  cbv zeta. by_outcome st H; try (split; [reflexivity | done]).
  split.
  - destruct (audioOutputRef st); vm_compute; reflexivity.
  - intros _. split; [reflexivity|].
    rewrite !app_assoc.
    change [setProcessingProgress (F64.of_Z 100); setIsProcessing false]
      with ([setProcessingProgress (F64.of_Z 100)] ++ [setIsProcessing false]).
    rewrite app_assoc. apply last_snoc.
Qed.

(** X16. A run ends in exactly one of two ways. Either the file was read
    and the engine fulfilled its promise: then the URL of the engine's output
    is published, once, and nothing is logged. Or reading the file or the
    engine failed: then nothing is published and that error is logged,
    once. *)
Theorem result_published_or_error_logged st file module :
  audioFile st = Some file -> wasmModule st = Some module ->
  let t := processAudio createObjectURL st in
  let s : gmap string JsVal :=
    {[ "filterLength" := prop (settings st) "filterLength";
       "stepSize" := prop (settings st) "stepSize" ]} in
  match arrayBuffer file with
  | inl error => published t = [] /\ logged t = [error] /\ engine_calls t = []
  | inr buf =>
      match wasm_processAudio module buf (JObj s) with
      | inl error => published t = [] /\ logged t = [error]
      | inr out => published t = [createObjectURL out] /\ logged t = []
      end
  end.
Proof.
  intros Hf Hm. cbv zeta.
  pose proof (processAudio_cases createObjectURL st) as H. cbv zeta in H.
  rewrite Hf, Hm in H.
  destruct (arrayBuffer file) as [error|buf]; [by rewrite H|].
  destruct (wasm_processAudio module buf _) as [error|out]; rewrite H;
    [by split|].
  destruct (audioOutputRef st); split; vm_compute; reflexivity.
Qed.

(** X17. The waiting time is fixed. A successful run waits for twenty
    timers of 100 ms, two seconds in all, whatever the length of the audio;
    a run in which the engine fails has waited for one; a run that cannot
    read the file for none. *)
Theorem waiting_time_is_fixed st file module :
  audioFile st = Some file -> wasmModule st = Some module ->
  let t := processAudio createObjectURL st in
  let s : gmap string JsVal :=
    {[ "filterLength" := prop (settings st) "filterLength";
       "stepSize" := prop (settings st) "stepSize" ]} in
  timers t
  = replicate
      match arrayBuffer file with
      | inl _ => 0
      | inr buf =>
          match wasm_processAudio module buf (JObj s) with
          | inl _ => 1
          | inr _ => 20
          end
      end 100.
Proof.
  intros Hf Hm. cbv zeta.
  pose proof (processAudio_cases createObjectURL st) as H. cbv zeta in H.
  rewrite Hf, Hm in H.
  destruct (arrayBuffer file) as [error|buf]; [by rewrite H|].
  destruct (wasm_processAudio module buf _) as [error|out]; rewrite H;
    [reflexivity|].
  destruct (audioOutputRef st); vm_compute; reflexivity.
Qed.

(** X18. A slider value reaches the engine as a string. After the user
    has moved the [filterLength] or the [stepSize] slider, the next run calls
    the engine with the text of the control's [value] for that setting, not a
    number, and with the other setting as it was. *)
Theorem slider_value_reaches_engine_as_string st e file module buf :
  audioFile st = Some file -> wasmModule st = Some module ->
  arrayBuffer file = inr buf ->
  name e = "filterLength" \/ name e = "stepSize" ->
  type e = "range" ->
  engine_calls
    (processAudio createObjectURL (with_settings st (handleSettingChange (settings st) e)))
  = [(buf,
      <[ name e := JStr (value e) ]>
        {[ "filterLength" := prop (settings st) "filterLength";
           "stepSize" := prop (settings st) "stepSize" ]})].
Proof.
  intros Hf Hm Hb Hn Ht.
  pose proof (processAudio_cases createObjectURL
                (with_settings st (handleSettingChange (settings st) e))) as H.
  cbv zeta in H. cbn [with_settings audioFile wasmModule settings audioOutputRef] in H.
  rewrite Hf, Hm, Hb in H.
  assert (Hs : ({[ "filterLength" := prop (handleSettingChange (settings st) e) "filterLength";
                   "stepSize" := prop (handleSettingChange (settings st) e) "stepSize" ]}
                : gmap string JsVal)
               = <[ name e := JStr (value e) ]>
                   {[ "filterLength" := prop (settings st) "filterLength";
                      "stepSize" := prop (settings st) "stepSize" ]}).
  { unfold handleSettingChange, prop. rewrite Ht. cbn [String.eqb Ascii.eqb Bool.eqb].
    destruct Hn as [-> | ->]; rewrite lookup_insert_eq, lookup_insert_ne by done;
      cbn [default];
      generalize (default JUndefined (settings st !! "filterLength"))
                 (default JUndefined (settings st !! "stepSize")) (JStr (value e));
      intros a b c; vm_compute; reflexivity. }
  rewrite Hs in H.
  destruct (wasm_processAudio module buf _) as [error|out]; rewrite H;
    [reflexivity|].
  destruct (audioOutputRef st); reflexivity.
Qed.

(** X19. Showing or hiding the advanced settings, or a change to any
    control other than the two sliders, has no effect on a run. *)
Theorem display_settings_do_not_reach_engine st :
  processAudio createObjectURL (with_settings st (toggleAdvancedSettings (settings st)))
  = processAudio createObjectURL st
  /\ (forall e, name e <> "filterLength" -> name e <> "stepSize" ->
      processAudio createObjectURL
        (with_settings st (handleSettingChange (settings st) e))
      = processAudio createObjectURL st).
Proof.
  split.
  - apply processAudio_settings; unfold toggleAdvancedSettings, prop;
      by rewrite lookup_insert_ne.
  - intros e Hf Hs.
    apply processAudio_settings; unfold handleSettingChange, prop;
      by rewrite lookup_insert_ne.
Qed.

(** X20. Toggling the advanced settings twice restores the settings,
    as long as the flag holds a boolean, which it does from the start. *)
Theorem toggle_twice s b :
  s !! "showAdvancedSettings" = Some (JBool b) ->
  toggleAdvancedSettings (toggleAdvancedSettings s) = s.
Proof.
  intros Hb. unfold toggleAdvancedSettings at 1.
  assert (Hp : prop (toggleAdvancedSettings s) "showAdvancedSettings" = JBool (negb b)).
  { unfold toggleAdvancedSettings, prop. rewrite lookup_insert_eq, Hb. reflexivity. }
  rewrite Hp. unfold toggleAdvancedSettings. rewrite insert_insert_eq.
  cbn [truthy]. rewrite negb_involutive. by apply insert_id.
Qed.
End AppRuns.

(** Witness for [result_published_or_error_logged]: a file that cannot be
    read. *)
Lemma unreadable_file_logged :
  let t := App.processAudio Examples.createObjectURL
             {| App.audioFile :=
                  Some {| App.file_name := "a.wav"; App.arrayBuffer := inl "NotReadableError" |};
                App.wasmModule := Some Examples.echo_module;
                App.settings := App.initial_settings; App.audioOutputRef := true |} in
  App.published t = [] /\ App.logged t = ["NotReadableError"] /\ App.engine_calls t = [].
Proof.
  exact (result_published_or_error_logged Examples.createObjectURL
           {| App.audioFile :=
                Some {| App.file_name := "a.wav"; App.arrayBuffer := inl "NotReadableError" |};
              App.wasmModule := Some Examples.echo_module;
              App.settings := App.initial_settings; App.audioOutputRef := true |}
           _ _ eq_refl eq_refl).
Defined.

(** Witness for [waiting_time_is_fixed]: a successful run on four bytes
    waits two seconds. *)
Lemma waiting_time_witness :
  App.timers (App.processAudio Examples.createObjectURL (Examples.page App.initial_settings))
  = replicate 20 100.
Proof.
  exact (waiting_time_is_fixed Examples.createObjectURL
           (Examples.page App.initial_settings) _ _ eq_refl eq_refl).
Defined.

(** Witness for [slider_value_reaches_engine_as_string]: the filter-length
    slider moved to 1024. *)
Lemma slider_value_witness :
  App.engine_calls
    (App.processAudio Examples.createObjectURL
       (App.with_settings (Examples.page App.initial_settings)
          (App.handleSettingChange App.initial_settings
             {| App.name := "filterLength"; App.value := "1024"; App.type := "range";
                App.checked := false |})))
  = [(JBuffer Examples.four_bytes,
      <[ "filterLength" := JStr "1024" ]>
        {[ "filterLength" := JNum (F64.of_Z 512);
           "stepSize" := JNum (F64.of_ratio 5 100) ]})].
Proof.
  exact (slider_value_reaches_engine_as_string Examples.createObjectURL
           (Examples.page App.initial_settings)
           {| App.name := "filterLength"; App.value := "1024"; App.type := "range";
              App.checked := false |}
           _ _ _ eq_refl eq_refl eq_refl (or_introl eq_refl) eq_refl).
Defined.

(** Witness for [toggle_twice]: the initial settings. *)
Lemma toggle_twice_witness :
  App.toggleAdvancedSettings (App.toggleAdvancedSettings App.initial_settings)
  = App.initial_settings.
Proof. exact (toggle_twice App.initial_settings false eq_refl). Defined.

(** * The input side: upload and recording *)

Section CaptureFacts.
Import Capture.

Lemma run_app st evs evs' : run st (evs ++ evs') = run (run st evs) evs'.
Proof. unfold run. apply fold_left_app. Qed.

(** Chunks delivered in a row: the non-empty ones are appended, nothing
    else changes. *)
Lemma run_chunks ds : forall st,
  let st' := run st (map DataAvailable ds) in
  audioFile st' = audioFile st /\ processedAudio st' = processedAudio st
  /\ isRecording st' = isRecording st /\ mediaRecorderRef st' = mediaRecorderRef st
  /\ concat (audioChunksRef st') = concat (audioChunksRef st) ++ concat ds.
Proof.
  induction ds as [|d ds IH]; intros st; cbn [map].
  - cbn. by rewrite app_nil_r.
  - change (run st (DataAvailable d :: map DataAvailable ds))
      with (run (ondataavailable st d) (map DataAvailable ds)).
    destruct (IH (ondataavailable st d)) as (Ha & Hp & Hr & Hm & Hc).
    cbv zeta. rewrite Ha, Hp, Hr, Hm, Hc. unfold ondataavailable.
    destruct d as [|b d]; cbn [length Nat.ltb Nat.leb].
    + by repeat split.
    + cbn [audioFile processedAudio isRecording mediaRecorderRef audioChunksRef].
      rewrite concat_app. cbn [concat]. rewrite app_nil_r, <- app_assoc.
      by repeat split.
Qed.

(** Events other than [Published] keep an absent result absent. *)
Lemma run_unpublished evs : forall st,
  forallb (fun ev => match ev with Published _ => false | _ => true end) evs = true ->
  processedAudio st = None -> processedAudio (run st evs) = None.
Proof.
  induction evs as [|ev evs IH]; intros st Hevs Hst; [exact Hst|].
  cbn [forallb] in Hevs. apply andb_prop in Hevs as [Hev Hevs].
  change (run st (ev :: evs)) with (run (step st ev) evs).
  apply IH; [exact Hevs|].
  destruct ev as [[|file files]|[error|stream]|data| | |url]; cbn [step]; try done.
  - unfold ondataavailable. by destruct (0 <? length data)%nat.
  - unfold stopRecording. by destruct (mediaRecorderRef st && isRecording st).
Qed.

(** X21. A recording session, from start to file. After a recording has
    started, the chunks delivered before and after the user stops it, and
    only they, make up the file [recording.wav] in the order they arrived:
    what an earlier session left in the chunk list is gone and empty chunks add
    nothing. The page is then not recording and shows no processed audio. *)
Theorem recording_round_trip st ds ds' :
  let st' := run st ([StartRecording (inr tt)] ++ map DataAvailable ds
                     ++ [StopRecording] ++ map DataAvailable ds'
                     ++ [RecorderStopped]) in
  audioFile st'
  = Some {| App.file_name := "recording.wav";
            App.arrayBuffer := inr (JBuffer (concat (ds ++ ds'))) |}
  /\ processedAudio st' = None
  /\ isRecording st' = false.
Proof.
  cbv zeta. rewrite !run_app.
  set (st0 := run st [StartRecording (inr tt)]).
  destruct (run_chunks ds st0) as (_ & _ & Hr1 & Hm1 & Hc1). cbv zeta in *.
  set (st1 := run st0 (map DataAvailable ds)) in *.
  assert (Hstop : run st1 [StopRecording]
                  = {| audioFile := audioFile st1; processedAudio := processedAudio st1;
                       isRecording := false; mediaRecorderRef := mediaRecorderRef st1;
                       audioChunksRef := audioChunksRef st1 |}).
  { cbn [run fold_left step]. unfold stopRecording. by rewrite Hr1, Hm1. }
  rewrite Hstop.
  match goal with
  | |- context [run ?s (map DataAvailable ds')] =>
      destruct (run_chunks ds' s) as (_ & _ & Hr2 & _ & Hc2); cbv zeta in *;
      set (st2 := run s (map DataAvailable ds')) in *
  end.
  cbn [run fold_left step onstop audioFile processedAudio isRecording].
  cbn [audioChunksRef isRecording] in Hc2, Hr2.
  rewrite Hc2, Hc1, Hr2, concat_app. by repeat split.
Qed.

(** X22. A stale result is never shown beside a new input. Once a file
    has been uploaded or a recording has been completed, no processed audio
    is shown until a run publishes one, whatever else happens in between. *)
Theorem stale_result_never_shown st evs ev evs' :
  match ev with
  | Upload (_ :: _) | RecorderStopped => true
  | _ => false
  end = true ->
  forallb (fun ev => match ev with Published _ => false | _ => true end) evs' = true ->
  processedAudio (run st (evs ++ ev :: evs')) = None.
Proof.
  intros Hev Hevs'. rewrite run_app.
  change (run (run st evs) (ev :: evs')) with (run (step (run st evs) ev) evs').
  apply run_unpublished; [exact Hevs'|].
  by destruct ev as [[|file files]| | | | |].
Qed.

(** X23. While the page is recording there is a recorder. Whatever the
    user does from the moment the page is mounted, [isRecording] is true
    only if [mediaRecorderRef] holds a recorder, so the guard of
    [stopRecording] never fails for want of one. *)
Theorem recording_needs_recorder evs :
  isRecording (run initial evs) = true -> mediaRecorderRef (run initial evs) = true.
Proof.
  assert (Hinv : forall st, (isRecording st = true -> mediaRecorderRef st = true) ->
            isRecording (run st evs) = true -> mediaRecorderRef (run st evs) = true).
  { induction evs as [|ev evs IH]; intros st Hst; [exact Hst|].
    change (run st (ev :: evs)) with (run (step st ev) evs). apply IH.
    destruct ev as [[|file files]|[error|stream]|data| | |url]; cbn [step]; try done.
    - unfold ondataavailable. by destruct (0 <? length data)%nat.
    - unfold stopRecording. by destruct (mediaRecorderRef st && isRecording st). }
  apply Hinv. discriminate.
Qed.
End CaptureFacts.

(** Witness for [stale_result_never_shown]: a result is published, then a
    new file is uploaded and a recording is started. *)
Lemma stale_result_witness :
  Capture.processedAudio
    (Capture.run Capture.initial
       ([Capture.Upload [Examples.file]; Capture.Published "blob:processed"]
        ++ Capture.Upload [Examples.file]
        :: [Capture.StartRecording (inr tt); Capture.DataAvailable Examples.four_bytes]))
  = None.
Proof.
  exact (stale_result_never_shown Capture.initial
           [Capture.Upload [Examples.file]; Capture.Published "blob:processed"]
           (Capture.Upload [Examples.file])
           [Capture.StartRecording (inr tt); Capture.DataAvailable Examples.four_bytes]
           eq_refl eq_refl).
Defined.

(** Witness for [recording_needs_recorder]. *)
Lemma recording_needs_recorder_witness :
  Capture.mediaRecorderRef
    (Capture.run Capture.initial
       [Capture.StartRecording (inl "NotAllowedError"); Capture.StartRecording (inr tt)])
  = true.
Proof.
  exact (recording_needs_recorder
           [Capture.StartRecording (inl "NotAllowedError"); Capture.StartRecording (inr tt)]
           eq_refl).
Defined.

(** A second session after a first: the file holds the chunks of the
    second session only. *)
Example second_recording :
  Capture.audioFile
    (Capture.run Capture.initial
       [Capture.StartRecording (inr tt); Capture.DataAvailable [Byte.x01; Byte.x02];
        Capture.StopRecording; Capture.RecorderStopped;
        Capture.StartRecording (inr tt); Capture.DataAvailable [];
        Capture.DataAvailable [Byte.x03]; Capture.StopRecording;
        Capture.DataAvailable [Byte.x04]; Capture.RecorderStopped])
  = Some {| App.file_name := "recording.wav";
            App.arrayBuffer := inr (JBuffer [Byte.x03; Byte.x04]) |}.
Proof. reflexivity. Qed.
